(** * ORCA input generator ([orca_mkinput.py]): the template assembler

    A shallow embedding of the functions of [src/orca_mkinput.py] that build
    the directive ("bang") line, the control blocks, and the single-step and
    [%compound] documents, together with the properties of the assembler
    stated in the specification.

    Modelling conventions.
    - A Python [str] is a Rocq [string]; a character stands for the code
      point of the same number, so the model covers the texts whose code
      points are below 256.  [str.lower], [str.isspace] (used by [split],
      [strip] and [rstrip]) are written out for that range.
    - [None]-or-string arguments are [option string]; Python truthiness
      ([if method:]) is [truthy].
    - Python [int]s are [Z], printed in decimal as [str(int)] does.
    - Dictionaries are [gmap]s; the step dictionaries, whose keys are fixed,
      are records.
    - The file system is a finite map from paths to the texts of the files as
      they are stored; a function that reads or writes files or raises runs
      in the monad [Py].  Reading a file in text mode translates the line
      ends ([universal_newlines]); writing is that of a POSIX system, which
      stores a line feed as it is.
    - Directories, permissions and the like are not part of the world.
      Whether the operating system refuses to create the directories above
      an output path, or to open an output file, is left open: the writers
      are defined in a section over what it refuses, and every property holds
      for each operating system. *)

From Stdlib Require Import ZArith String Ascii DecimalString.
From stdpp Require Import gmap strings list fin_maps.

Local Open Scope string_scope.
Local Open Scope list_scope.

(** ** Python string primitives *)

Module PyStr.

(** The line feed, written ["\n"] in the source. *)
Definition LF : ascii := "010"%char.
Definition nl : string := String LF EmptyString.

(** [str.isspace] on a code point below 256. *)
Definition is_space (c : ascii) : bool :=
  let n := nat_of_ascii c in
  (((9 <=? n) && (n <=? 13)) || ((28 <=? n) && (n <=? 32))
   || (n =? 133) || (n =? 160))%nat.

(** [str.lower] on a code point below 256: A-Z and the Latin-1 capitals
    (all of 0xC0-0xDE but the multiplication sign 0xD7). *)
Definition lower_char (c : ascii) : ascii :=
  let n := nat_of_ascii c in
  if (((65 <=? n) && (n <=? 90))
      || ((192 <=? n) && (n <=? 222) && negb (n =? 215)))%nat
  then ascii_of_nat (n + 32) else c.

Fixpoint lower (s : string) : string :=
  match s with
  | EmptyString => EmptyString
  | String c r => String (lower_char c) (lower r)
  end.

(** [s.startswith(p)] *)
Definition startswith (s p : string) : bool := String.prefix p s.

(** [if s:] for a string. *)
Definition nonempty (s : string) : bool := negb (String.eqb s EmptyString).

(** [s.rstrip()]: the trailing white space is removed. *)
Fixpoint rstrip (s : string) : string :=
  match s with
  | EmptyString => EmptyString
  | String c r =>
      let r' := rstrip r in
      if is_space c && negb (nonempty r') then EmptyString else String c r'
  end.

(** [s.lstrip()] *)
Fixpoint lstrip (s : string) : string :=
  match s with
  | EmptyString => EmptyString
  | String c r => if is_space c then lstrip r else s
  end.

(** [s.strip()] *)
Definition strip (s : string) : string := lstrip (rstrip s).

(** [s.replace(",", " ")], the one use of [replace] in the source. *)
Fixpoint replace_comma (s : string) : string :=
  match s with
  | EmptyString => EmptyString
  | String c r =>
      String (if Ascii.eqb c ","%char then " "%char else c) (replace_comma r)
  end.

(** [s.split()]: the maximal runs of characters that are not white space.
    [cur] is the run being read. *)
Fixpoint split_from (cur s : string) : list string :=
  match s with
  | EmptyString => if nonempty cur then [cur] else []
  | String c r =>
      if is_space c
      then (if nonempty cur then cur :: split_from EmptyString r else split_from EmptyString r)
      else split_from (cur +:+ String c EmptyString) r
  end.

Definition split (s : string) : list string := split_from EmptyString s.

(** [sep.join(l)] *)
Definition join (sep : string) (l : list string) : string :=
  String.concat sep l.

(** [str(n)] for an [int], as the f-strings print it. *)
Definition str_int (n : Z) : string := NilZero.string_of_int (Z.to_int n).

End PyStr.
Import PyStr.

(** Truthiness of an optional string: [None] and the empty string are falsy. *)
Definition truthy (o : option string) : bool :=
  match o with
  | Some s => nonempty s
  | None => false
  end.

(** The string held by an argument that has been tested truthy. *)
Definition the (o : option string) : string := default EmptyString o.

(** Truthiness of an optional list: [None] and [[]] are falsy. *)
Definition truthy_list {A} (o : option (list A)) : bool :=
  match o with
  | Some (_ :: _) => true
  | _ => false
  end.

(** ** Utilities (source lines 41-87) *)

(** [_parse_extras]: every item is cut at commas and white space. *)
Definition _parse_extras (extra_list : option (list string)) : list string :=
  if negb (truthy_list extra_list) then []
  else
    foldl (fun toks item =>
             foldl (fun toks t =>
                      let t := strip t in
                      if nonempty t then toks ++ [t] else toks)
                   toks (split (replace_comma item)))
          [] (default [] extra_list).

Definition _join_bang_tokens (tokens : list string) : string :=
  "! " +:+ join " " (List.filter nonempty tokens).

Definition JOB_MAP : gmap string (list string) :=
  list_to_map
    [ ("sp", []);
      ("opt", ["Opt"]);
      ("freq", ["Freq"]);
      ("optfreq", ["Opt"; "Freq"]);
      ("optts", ["OptTS"]);
      ("tddft", []);
      ("neb", ["NEB"]);
      ("nebci", ["NEB-CI"]);
      ("nebts", ["NEB-TS"]) ].

(** [JOB_MAP.get(job, [])] *)
Definition JOB_MAP_get (job : string) : list string :=
  default [] (JOB_MAP !! job).

(** The test of line 77 on one extra token:
    [t.lower().startswith(("tightscf", "loosescf"))]. *)
Definition is_scf_override (t : string) : bool :=
  startswith (lower t) "tightscf" || startswith (lower t) "loosescf".

(** The list [toks] of [_make_bang_line] as it stands at line 87, before
    it is joined.  Each [let] is one statement of the source. *)
Definition _make_bang_toks (method basis : option string) (job : string)
    (grid_token cpcm smd : option string) (extra_tokens : list string)
    (force_tokens : option (list string)) : list string :=
  let toks := [] in
  let toks := if truthy method then toks ++ [the method] else toks in
  let toks :=
    if truthy basis
       && negb (bool_decide (the basis ∈ ["None"; "-"; "NA"]))
    then toks ++ [the basis] else toks in
  let toks := if truthy grid_token then toks ++ [the grid_token] else toks in
  let toks :=
    if negb (existsb is_scf_override extra_tokens)
    then toks ++ ["TightSCF"] else toks in
  let toks := toks ++ JOB_MAP_get job in
  let toks := if truthy cpcm then toks ++ ["CPCM(" +:+ the cpcm +:+ ")"] else toks in
  let toks := if truthy smd then toks ++ ["SMD(" +:+ the smd +:+ ")"] else toks in
  let toks := toks ++ extra_tokens in
  let toks :=
    if truthy_list force_tokens then toks ++ default [] force_tokens else toks in
  toks.

Definition _make_bang_line (method basis : option string) (job : string)
    (grid_token cpcm smd : option string) (extra_tokens : list string)
    (force_tokens : option (list string)) : string :=
  _join_bang_tokens
    (_make_bang_toks method basis job grid_token cpcm smd extra_tokens
       force_tokens).

(** ** Control blocks (source lines 89-99) *)

Definition _pal_block (pal : Z) : string :=
  "%pal" +:+ nl +:+ "  nprocs " +:+ str_int pal +:+ nl +:+ "end".

Definition _maxcore_block (mb : Z) : string := "%MaxCore " +:+ str_int mb.

Definition _scf_block (maxiter : Z) : string :=
  "%scf" +:+ nl +:+ "  MaxIter " +:+ str_int maxiter +:+ nl +:+ "end".

Definition _tddft_block (nroots : Z) : string :=
  "%tddft" +:+ nl +:+ "  nroots " +:+ str_int nroots +:+ nl +:+ "end".

(** ** The words of the specification *)

(** The directive line in the words of the specification (section 4.1):
    one segment per kind of token, in the fixed order. *)
Module Spec.

Definition sentinels : list string := ["None"; "-"; "NA"].

(** [method], if present. *)
Definition method_token (method : option string) : list string :=
  match method with
  | Some m => if decide (m = EmptyString) then [] else [m]
  | None => []
  end.

(** [basis], unless absent or a sentinel. *)
Definition basis_token (basis : option string) : list string :=
  match basis with
  | Some b => if decide (b = EmptyString ∨ b ∈ sentinels) then [] else [b]
  | None => []
  end.

(** [grid], if non-empty. *)
Definition grid_token (grid : option string) : list string :=
  match grid with
  | Some g => if decide (g = EmptyString) then [] else [g]
  | None => []
  end.

(** A token starts with [marker], letter case apart. *)
Definition ci_startswith (t marker : string) : Prop :=
  String.prefix marker (lower t) = true.

(** A token that overrides the default convergence mode. *)
Definition convergence_override (t : string) : Prop :=
  ci_startswith t "tightscf" ∨ ci_startswith t "loosescf".

#[global] Instance convergence_override_dec t : Decision (convergence_override t).
Proof. unfold convergence_override, ci_startswith. apply _. Defined.

(** The default convergence token, unless the extras hold an override. *)
Definition convergence_token (extras : list string) : list string :=
  if decide (Exists convergence_override extras) then [] else ["TightSCF"].

(** The job-kind keyword table of section 4.1; nothing for any other kind. *)
Definition job_keywords (job : string) : list string :=
  if decide (job = "sp") then []
  else if decide (job = "opt") then ["Opt"]
  else if decide (job = "freq") then ["Freq"]
  else if decide (job = "optfreq") then ["Opt"; "Freq"]
  else if decide (job = "optts") then ["OptTS"]
  else if decide (job = "tddft") then []
  else if decide (job = "neb") then ["NEB"]
  else if decide (job = "nebci") then ["NEB-CI"]
  else if decide (job = "nebts") then ["NEB-TS"]
  else [].

Definition job_kinds : list string :=
  ["sp"; "opt"; "freq"; "optfreq"; "optts"; "tddft"; "neb"; "nebci"; "nebts"].

(** [CPCM(solvent)] and [SMD(solvent)], each if set. *)
Definition cpcm_token (cpcm : option string) : list string :=
  match cpcm with
  | Some c => if decide (c = EmptyString) then [] else ["CPCM(" +:+ c +:+ ")"]
  | None => []
  end.

Definition smd_token (smd : option string) : list string :=
  match smd with
  | Some c => if decide (c = EmptyString) then [] else ["SMD(" +:+ c +:+ ")"]
  | None => []
  end.

Definition forced_tokens (force : option (list string)) : list string :=
  match force with
  | Some l => l
  | None => []
  end.

(** The tokens the caller chose that stand before the convergence token. *)
Definition head_tokens (method basis grid : option string) : list string :=
  method_token method ++ basis_token basis ++ grid_token grid.

Definition solvent_tokens (cpcm smd : option string) : list string :=
  cpcm_token cpcm ++ smd_token smd.

Definition directive_tokens (method basis : option string) (job : string)
    (grid cpcm smd : option string) (extras : list string)
    (force : option (list string)) : list string :=
  method_token method ++ basis_token basis ++ grid_token grid
  ++ convergence_token extras ++ job_keywords job
  ++ cpcm_token cpcm ++ smd_token smd ++ extras ++ forced_tokens force.

(** Falsy tokens dropped, the rest joined by spaces after the marker. *)
Definition drop_falsy (tokens : list string) : list string :=
  List.filter (fun t => bool_decide (t ≠ EmptyString)) tokens.

Definition directive_line (method basis : option string) (job : string)
    (grid cpcm smd : option string) (extras : list string)
    (force : option (list string)) : string :=
  "! " +:+ String.concat " " (drop_falsy
    (directive_tokens method basis job grid cpcm smd extras force)).

(** A literal block in the words of section 6: the trailing newlines
    trimmed, one newline appended. *)
Fixpoint trim_trailing_newlines (s : string) : string :=
  match s with
  | EmptyString => EmptyString
  | String c r =>
      match trim_trailing_newlines r with
      | EmptyString => if Ascii.eqb c LF then EmptyString else String c EmptyString
      | r' => String c r'
      end
  end.

Definition literal_block (text : string) : string :=
  trim_trailing_newlines text +:+ nl.

End Spec.

(** ** Proof steps *)

(** From [H : t ∈ [x1; ...; xn]]: the goal for each [t := xi], closed by [tac]. *)
Ltac each_elem H tac :=
  repeat (apply elem_of_cons in H as [->|H]; [tac|]);
  now apply elem_of_nil in H.

(** Refutes [H : t ∈ [x1; ...; xn]] when [t] differs from every [xi] by its
    constructors. *)
Ltac no_elem H :=
  repeat (apply elem_of_cons in H as [H|H]; [discriminate H|]);
  now apply elem_of_nil in H.

(** ** Files, output and exceptions *)

(** The exceptions of a run, each with its message: the one that
    [_read_text_file] and [read_text] raise, and those with which the
    operating system refuses a call ([OSError] stands for every kind that has
    no constructor of its own: [NotADirectoryError], [IsADirectoryError],
    [PermissionError] and so on). *)
Inductive exc : Type :=
| FileNotFoundError (msg : string)
| FileExistsError (msg : string)
| OSError (msg : string).

(** [files]: the text of every regular file as it is stored, by path.
    [printed]: the lines printed so far. *)
Record world : Type := World {
  files : gmap string string;
  printed : list string
}.

(** A computation that may raise, in a world it may change. *)
Definition Py (A : Type) : Type := world -> (exc + A) * world.

#[export] Instance Py_ret : MRet Py := fun A a w => (inr a, w).

#[export] Instance Py_bind : MBind Py := fun A B k m w =>
  match m w with
  | (inl e, w') => (inl e, w')
  | (inr a, w') => k a w'
  end.

Definition raise {A} (e : exc) : Py A := fun w => (inl e, w).

(** What an operating system refuses: for a world and a path, the exception
    with which a call on that path ends, or [None] when the call goes
    through. *)
Definition refusal : Type := world → string → option exc.

Section OS.

(** [mkdir_refused w path]: the outcome of
    [Path(path).parent.mkdir(parents=True, exist_ok=True)] in the world [w];
    it raises, for one, [FileExistsError] when the parent of [path] is a
    regular file.  [open_refused w path]: the outcome of [open(path, "w")]. *)
Variable mkdir_refused : refusal.
Variable open_refused : refusal.

(** [Path(path).parent.mkdir(parents=True, exist_ok=True)]: the directories
    it creates are not part of the world. *)
Definition mkdir_parents (path : string) : Py unit := fun w =>
  match mkdir_refused w path with
  | Some e => (inl e, w)
  | None => (inr tt, w)
  end.

(** [open(path, "w")]: unless the call is refused, the file exists from now
    on and is empty. *)
Definition open_w (path : string) : Py unit := fun w =>
  match open_refused w path with
  | Some e => (inl e, w)
  | None => (inr tt, World (<[path := EmptyString]> (files w)) (printed w))
  end.

(** [f.write(text)] on the file opened at [path].  A write to a file that
    was opened goes through: a full disk and the like are left out. *)
Definition f_write (path text : string) : Py unit := fun w =>
  (inr tt,
   World (<[path := default EmptyString (files w !! path) +:+ text]> (files w))
         (printed w)).

Definition print (line : string) : Py unit := fun w =>
  (inr tt, World (files w) (printed w ++ [line])).

(** The double quote of the f-strings of lines 158 and 201. *)
Definition dq : string := String "034"%char EmptyString.

(** ** Literal blocks (source lines 104-126) *)

(** [p.exists()] *)
Definition path_exists (path : string) : Py bool := fun w =>
  (inr (bool_decide (is_Some (files w !! path))), w).

(** The carriage return. *)
Definition CR : ascii := "013"%char.

(** What reading in text mode makes of the line ends of a stored text (the
    universal newlines of [open], which [read_text] does not switch off):
    a carriage return followed by a line feed, and a carriage return alone,
    become one line feed. *)
Fixpoint universal_newlines (s : string) : string :=
  match s with
  | EmptyString => EmptyString
  | String c r =>
      if Ascii.eqb c CR
      then
        match r with
        | String d r' =>
            if Ascii.eqb d LF then String LF (universal_newlines r')
            else String LF (universal_newlines r)
        | EmptyString => String LF EmptyString
        end
      else String c (universal_newlines r)
  end.

(** [p.read_text(encoding="utf-8")] hands over the decoded text of the
    file with its line ends translated. *)
Definition read_text (path : string) : Py string := fun w =>
  match files w !! path with
  | Some text => (inr (universal_newlines text), w)
  | None =>
      (inl (FileNotFoundError ("[Errno 2] No such file or directory: " +:+ path)),
       w)
  end.

Definition _read_text_file (path : string) : Py string :=
  found ← path_exists path;
  if negb found
  then raise (FileNotFoundError ("extra block file not found: " +:+ path))
  else text ← read_text path;
       mret (rstrip text +:+ nl).

(** [for f in fs: blocks.append(_read_text_file(f))] *)
Fixpoint read_blocks (blocks : list string) (fs : list string)
  : Py (list string) :=
  match fs with
  | [] => mret blocks
  | f :: fs' => text ← _read_text_file f; read_blocks (blocks ++ [text]) fs'
  end.

(** The options of one numbered step [k]: [--job<k>], [--method<k>], ... *)
Record step_args : Type := StepArgs {
  job_k : option string;
  method_k : option string;
  basis_k : option string;
  nstates_k : Z;
  grid_k : option string;
  cpcm_k : option string;
  smd_k : option string;
  extra_k : option (list string);
  moinp_k : option string;
  extra_block_k : option (list string)
}.

(** The parsed command line, as far as the assembler reads it. *)
Record args : Type := Args {
  a_method : option string;
  a_basis : option string;
  a_job : option string;
  a_nstates : Z;
  a_cpcm : option string;
  a_smd : option string;
  a_grid : option string;
  a_moinp : option string;
  a_extra : option (list string);
  a_extra_block : option (list string);
  a_charge : Z;
  a_mult : Z;
  a_pal : Z;
  a_maxcore_mb : Z;
  a_pal_style : string;
  a_step : nat -> step_args
}.

Definition _collect_global_extra_blocks (a : args) : Py (list string) :=
  let blocks := [] in
  if truthy_list (a_extra_block a)
  then read_blocks blocks (default [] (a_extra_block a))
  else mret blocks.

(** The loop of [_collect_step_extra_blocks] over the step numbers [ks]. *)
Fixpoint collect_step_loop (a : args) (by_step : gmap nat (list string))
    (ks : list nat) : Py (gmap nat (list string)) :=
  match ks with
  | [] => mret by_step
  | k :: ks' =>
      let lst := extra_block_k (a_step a k) in
      if truthy_list lst
      then blocks ← read_blocks [] (default [] lst);
           collect_step_loop a (<[k := blocks]> by_step) ks'
      else collect_step_loop a by_step ks'
  end.

Definition _collect_step_extra_blocks (a : args)
  : Py (gmap nat (list string)) :=
  collect_step_loop a ∅ (seq 1 4).

(** ** Writers (source lines 130-222) *)

(** [t.lower() == "moread"] *)
Definition is_moread (t : string) : bool := String.eqb (lower t) "moread".

(** The geometry-binding line, without the line feeds around it. *)
Definition xyz_line (charge mult : Z) (xyzfile : string) : string :=
  "* xyzfile " +:+ str_int charge +:+ " " +:+ str_int mult +:+ " " +:+ xyzfile.

(** The extra tokens of [write_single_step] as passed to [_make_bang_line]
    at line 139. *)
Definition single_step_tokens (extra : option (list string))
    (moinp : option string) : list string :=
  let extra_tokens := _parse_extras extra in
  if truthy moinp && negb (existsb is_moread extra_tokens)
  then extra_tokens ++ ["moread"] else extra_tokens.

(** The string [header] of [write_single_step] as line 139 sets it: the
    directive line of the document. *)
Definition single_step_header (method basis : option string) (job : string)
    (grid cpcm smd : option string) (extra : option (list string))
    (moinp : option string) : string :=
  let extra_tokens := single_step_tokens extra moinp in
  _make_bang_line method basis job grid cpcm smd extra_tokens None.

(** The list [content] of [write_single_step] as it stands at line 162. *)
Definition single_step_content (xyzfile : string) (charge mult : Z)
    (method basis : option string) (job : string)
    (grid cpcm smd : option string) (extra : option (list string))
    (pal maxcore_mb nstates : Z) (moinp : option string) (pal_style : string)
    (extra_blocks : option (list string)) : list string :=
  let header := single_step_header method basis job grid cpcm smd extra moinp in
  let blocks := [] in
  let header :=
    if String.eqb pal_style "bang"
    then header +:+ nl +:+ nl +:+ "! PAL" +:+ str_int pal else header in
  let blocks :=
    if String.eqb pal_style "bang" then blocks else blocks ++ [_pal_block pal] in
  let blocks := blocks ++ [_maxcore_block maxcore_mb] in
  let blocks :=
    if String.eqb job "tddft" then blocks ++ [_tddft_block nstates] else blocks in
  let blocks := blocks ++ [_scf_block 300] in
  let content := [] in
  let content := content ++ [header] in
  let content :=
    match blocks with [] => content | _ => content ++ [join nl blocks] end in
  let content :=
    if truthy moinp
    then content ++ ["%moinp " +:+ dq +:+ the moinp +:+ dq] else content in
  let content :=
    if truthy_list extra_blocks
    then content ++ [join nl (default [] extra_blocks)] else content in
  content ++ [nl +:+ xyz_line charge mult xyzfile +:+ nl +:+ nl].

Definition write_single_step (outpath xyzfile : string) (charge mult : Z)
    (method basis : option string) (job : string)
    (grid cpcm smd : option string) (extra : option (list string))
    (pal maxcore_mb nstates : Z) (moinp : option string) (pal_style : string)
    (extra_blocks : option (list string)) : Py unit :=
  let content :=
    single_step_content xyzfile charge mult method basis job grid cpcm smd
      extra pal maxcore_mb nstates moinp pal_style extra_blocks in
  mkdir_parents outpath;;
  open_w outpath;;
  f_write outpath (join (nl +:+ nl) content);;
  print ("[OK] Wrote " +:+ outpath).

(** A step of a compound job: the dictionary built by
    [_collect_compound_steps], with its nine keys. *)
Record step : Type := Step {
  st_job : string;
  st_method : option string;
  st_basis : option string;
  st_grid : option string;
  st_cpcm : option string;
  st_smd : option string;
  st_extra_tokens : list string;
  st_moinp : option string;
  st_nstates : Z
}.

(** The directive line of a step (lines 193-198). *)
Definition step_bang (st : step) : string :=
  let extra_tokens := st_extra_tokens st in
  if truthy (st_moinp st) && negb (existsb is_moread extra_tokens)
  then
    let extra_tokens := extra_tokens ++ ["moread"] in
    _make_bang_line (st_method st) (st_basis st) (st_job st) (st_grid st)
      (st_cpcm st) (st_smd st) extra_tokens None
  else
    _make_bang_line (st_method st) (st_basis st) (st_job st) (st_grid st)
      (st_cpcm st) (st_smd st) (st_extra_tokens st) None.

(** One turn of the loop of [write_compound] (lines 192-211): what step
    number [i] appends to [comp]. *)
Definition compound_step (xyzfile : string) (charge mult : Z)
    (step_extra_blocks : option (gmap nat (list string)))
    (comp : list string) (i : nat) (st : step) : list string :=
  let comp := comp ++ ["New_step"] in
  let bang := step_bang st in
  let comp := comp ++ [bang] in
  let comp :=
    if truthy (st_moinp st)
    then comp ++ ["%moinp " +:+ dq +:+ the (st_moinp st) +:+ dq] else comp in
  let comp :=
    if String.eqb (st_job st) "tddft"
    then comp ++ [_tddft_block (st_nstates st)] else comp in
  let comp := comp ++ [_scf_block 300] in
  let comp :=
    match step_extra_blocks ≫= (λ d, d !! i) with
    | Some blocks => comp ++ [rstrip (join nl blocks)]
    | None => comp
    end in
  let comp :=
    if (i =? 1)%nat
    then comp ++ [xyz_line charge mult xyzfile +:+ nl] else comp in
  comp ++ ["Step_end" +:+ nl].

(** [for i, st in enumerate(steps, start=...)] *)
Fixpoint compound_loop (xyzfile : string) (charge mult : Z)
    (step_extra_blocks : option (gmap nat (list string)))
    (comp : list string) (i : nat) (steps : list step) : list string :=
  match steps with
  | [] => comp
  | st :: steps' =>
      compound_loop xyzfile charge mult step_extra_blocks
        (compound_step xyzfile charge mult step_extra_blocks comp i st)
        (S i) steps'
  end.

(** The list [comp] of [write_compound] as it stands at line 213. *)
Definition compound_comp (xyzfile : string) (charge mult : Z)
    (steps : list step) (step_extra_blocks : option (gmap nat (list string)))
  : list string :=
  let comp := [] in
  let comp := comp ++ ["%compound"] in
  let comp :=
    compound_loop xyzfile charge mult step_extra_blocks comp 1 steps in
  comp ++ ["EndRun"].

(** The string [header] of [write_compound] (lines 178-184). *)
Definition compound_header (pal maxcore_mb : Z) (pal_style : string) : string :=
  let header_lines := [] in
  let header_lines :=
    if String.eqb pal_style "bang"
    then header_lines ++ ["! PAL" +:+ str_int pal]
    else if String.eqb pal_style "block"
    then header_lines ++ ["%pal" +:+ nl +:+ "  nprocs " +:+ str_int pal +:+ nl +:+ "end"]
    else header_lines in
  let header_lines := header_lines ++ ["%MaxCore " +:+ str_int maxcore_mb] in
  strip (join nl header_lines).

(** The text that the writes of lines 217-221 leave in the file. *)
Definition compound_text (xyzfile : string) (charge mult : Z)
    (steps : list step) (pal maxcore_mb : Z) (pal_style : string)
    (global_extra_blocks : option (list string))
    (step_extra_blocks : option (gmap nat (list string))) : string :=
  let header := compound_header pal maxcore_mb pal_style in
  let body := join nl (compound_comp xyzfile charge mult steps step_extra_blocks) in
  (if nonempty header then header +:+ nl +:+ nl else EmptyString)
  +:+ (if truthy_list global_extra_blocks
       then rstrip (join nl (default [] global_extra_blocks)) +:+ nl +:+ nl
       else EmptyString)
  +:+ body +:+ nl.

Definition write_compound (outpath xyzfile : string) (charge mult : Z)
    (steps : list step) (pal maxcore_mb : Z) (pal_style : string)
    (global_extra_blocks : option (list string))
    (step_extra_blocks : option (gmap nat (list string))) : Py unit :=
  let header := compound_header pal maxcore_mb pal_style in
  let body := join nl (compound_comp xyzfile charge mult steps step_extra_blocks) in
  mkdir_parents outpath;;
  open_w outpath;;
  (if nonempty header then f_write outpath (header +:+ nl +:+ nl) else mret tt);;
  (if truthy_list global_extra_blocks
   then f_write outpath
          (rstrip (join nl (default [] global_extra_blocks)) +:+ nl +:+ nl)
   else mret tt);;
  f_write outpath (body +:+ nl);;
  print ("[OK] Wrote %compound input: " +:+ outpath).

(** ** Command-line layer (source lines 337-360 and 484-521) *)

(** [x or y] on optional strings. *)
Definition py_or (x y : option string) : option string :=
  if truthy x then x else y.

(** [any(getattr(args, f"{field}{k}") is not None for field in ...)] *)
Definition numbered_option_present (s : step_args) : bool :=
  bool_decide (is_Some (job_k s)) || bool_decide (is_Some (method_k s))
  || bool_decide (is_Some (basis_k s)) || bool_decide (is_Some (grid_k s))
  || bool_decide (is_Some (cpcm_k s)) || bool_decide (is_Some (smd_k s))
  || bool_decide (is_Some (extra_k s)) || bool_decide (is_Some (moinp_k s)).

Definition _collect_compound_steps (a : args) : list step :=
  foldl (fun steps k =>
           let s := a_step a k in
           if numbered_option_present s
           then
             let st :=
               {| st_job := the (py_or (job_k s) (Some "sp"));
                  st_method :=
                    py_or (method_k s) (py_or (a_method a) (Some "wB97X-D4"));
                  st_basis :=
                    py_or (basis_k s) (py_or (a_basis a) (Some "def2-SVPD"));
                  st_grid := py_or (grid_k s) (a_grid a);
                  st_cpcm := cpcm_k s;
                  st_smd := smd_k s;
                  st_extra_tokens := _parse_extras (extra_k s);
                  st_moinp := moinp_k s;
                  st_nstates := nstates_k s |} in
             steps ++ [st]
           else steps)
        [] (seq 1 4).

Definition _any_numbered_options_present (a : args) : bool :=
  existsb (fun k => numbered_option_present (a_step a k)) (seq 1 4).

(** The end of [main] for one geometry file (lines 484-521), once the output
    path [outpath] is resolved and free: the literal blocks are read, then
    the document is written.  [xyz_name] is [xyz.name]; the value is the
    exit status.  [printed] takes the lines of both output streams. *)
Definition main_assemble (a : args) (outpath xyz_name : string) : Py Z :=
  if _any_numbered_options_present a
  then
    let steps := _collect_compound_steps a in
    match steps with
    | [] =>
        print "[ERR] Numbered options detected but no valid steps assembled.";;
        mret 1%Z
    | _ =>
        global_blocks ← _collect_global_extra_blocks a;
        step_blocks ← _collect_step_extra_blocks a;
        write_compound outpath xyz_name (a_charge a) (a_mult a) steps
          (a_pal a) (a_maxcore_mb a) (a_pal_style a)
          (Some global_blocks) (Some step_blocks);;
        mret 0%Z
    end
  else if negb (truthy (a_job a) || truthy (a_method a) || truthy (a_basis a))
  then
    print ("[ERR] No job/method/basis provided. Give --job and optionally "
           +:+ "--method/--basis, or numbered step flags.");;
    mret 1%Z
  else
    global_blocks ← _collect_global_extra_blocks a;
    write_single_step outpath xyz_name (a_charge a) (a_mult a)
      (py_or (a_method a) (Some "wB97X-D4"))
      (py_or (a_basis a) (Some "def2-TZVPPD"))
      (the (py_or (a_job a) (Some "sp")))
      (a_grid a) (a_cpcm a) (a_smd a) (a_extra a)
      (a_pal a) (a_maxcore_mb a) (a_nstates a) (a_moinp a) (a_pal_style a)
      (Some global_blocks);;
    mret 0%Z.

(** ** Vocabulary of the properties *)

(** The tokens that [_join_bang_tokens] keeps: the tokens of the line. *)
Definition line_tokens (tokens : list string) : list string :=
  List.filter nonempty tokens.

(** How many tokens of [l] satisfy [p]. *)
Definition count_tok (p : string -> bool) (l : list string) : nat :=
  length (List.filter p l).

(** The first and the last character of a string. *)
Definition first_char (s : string) : option ascii :=
  match s with
  | EmptyString => None
  | String c _ => Some c
  end.

Fixpoint last_char (s : string) : option ascii :=
  match s with
  | EmptyString => None
  | String c r => match last_char r with Some d => Some d | None => Some c end
  end.

(** Every character of [s] satisfies [p]. *)
Fixpoint all_chars (p : ascii → bool) (s : string) : bool :=
  match s with
  | EmptyString => true
  | String c r => p c && all_chars p r
  end.

(** A text without line feed. *)
Definition one_line (s : string) : bool :=
  all_chars (λ c, negb (Ascii.eqb c LF)) s.

(** No word of a token of [l] satisfies [p]; the words of a token are what
    [split] makes of it. *)
Definition no_word (p : string → bool) (l : list string) : Prop :=
  ∀ t, t ∈ l → existsb p (split t) = false.

(** The lines of a text: what [str.split] at the line feed makes of it. *)
Fixpoint lines (s : string) : list string :=
  match s with
  | EmptyString => [EmptyString]
  | String c r =>
      if Ascii.eqb c LF then EmptyString :: lines r
      else
        match lines r with
        | l :: ls => String c l :: ls
        | [] => [String c EmptyString]
        end
  end.

(** The first of the paths [fs] that names no file of [w]. *)
Definition first_missing (w : world) (fs : list string) : option string :=
  List.find (fun p => bool_decide (files w !! p = None)) fs.

(** The message of the exception of line 107. *)
Definition not_found (path : string) : exc :=
  FileNotFoundError ("extra block file not found: " +:+ path).

(** The exception with which a writer ends before it writes anything: the
    one of [mkdir], or else the one of [open]. *)
Definition write_refused (w : world) (outpath : string) : option exc :=
  match mkdir_refused w outpath with
  | Some e => Some e
  | None => open_refused w outpath
  end.

(** The rule of the restart-read token, for a directive line [line] built
    from the extra tokens [e] of a stage whose restart file is given.
    Without a restart-read token among [e], one is appended after them: it is
    the last word of the line, and the only restart-read word of the line as
    long as no word of the method, basis, grid, solvent and extra tokens is
    one.  With a restart-read token among [e], the line is that of [e]
    itself. *)
Definition restart_read_rule (line : string) (m b : option string)
    (j : string) (g c s : option string) (e : list string) : Prop :=
  let pre :=
    Spec.head_tokens m b g ++ Spec.convergence_token e
    ++ Spec.job_keywords j ++ Spec.solvent_tokens c s in
  (existsb is_moread e = false →
     line = _join_bang_tokens (pre ++ e ++ ["moread"])
     ∧ count_tok is_moread (e ++ ["moread"]) = 1
     ∧ split line = "!" :: flat_map split (pre ++ e) ++ ["moread"]
     ∧ (no_word is_moread
          (Spec.head_tokens m b g ++ Spec.solvent_tokens c s ++ e) →
        count_tok is_moread (split line) = 1))
  ∧ (existsb is_moread e = true →
     line = _join_bang_tokens (pre ++ e)
     ∧ split line = "!" :: flat_map split (pre ++ e)).

(** What a step of a compound job puts between its start marker and its
    geometry line or end marker: a directive line, a section that opens
    with a percent sign, or literal text that went through [rstrip]. *)
Definition section_chunk (t : string) : Prop :=
  first_char t = Some "!"%char ∨ first_char t = Some "%"%char
  ∨ ∃ x, t = rstrip x.

(** The lookup of line 206: the literal blocks of step number [i]. *)
Definition blocks_at (seb : option (gmap nat (list string))) (i : nat)
  : option (list string) :=
  seb ≫= (λ d, d !! i).

(** The chunks that a stage of a compound document puts between its start
    marker and its geometry line or end marker (lines 193-207): the
    directive line, the restart reference, the [%tddft] block, the SCF block
    and the literal text of the stage. *)
Definition moinp_chunk (st : step) : list string :=
  if truthy (st_moinp st)
  then ["%moinp " +:+ dq +:+ the (st_moinp st) +:+ dq] else [].

Definition stage_literal (seb : option (gmap nat (list string))) (i : nat)
  : list string :=
  match blocks_at seb i with
  | Some blocks => [rstrip (join nl blocks)]
  | None => []
  end.

Definition stage_sections (seb : option (gmap nat (list string))) (i : nat)
    (st : step) : list string :=
  [step_bang st] ++ moinp_chunk st
  ++ (if String.eqb (st_job st) "tddft"
      then [_tddft_block (st_nstates st)] else [])
  ++ [_scf_block 300] ++ stage_literal seb i.

(** The chunks of a compound document whose text the caller supplies: the
    global literal text, and for each stage, numbered from [i], its
    directive line, its restart reference and its literal text. *)
Definition global_text (global : option (list string)) : list string :=
  if truthy_list global then [rstrip (join nl (default [] global))] else [].

Fixpoint stage_texts (seb : option (gmap nat (list string))) (i : nat)
    (steps : list step) : list string :=
  match steps with
  | [] => []
  | st :: steps' =>
      step_bang st :: moinp_chunk st ++ stage_literal seb i
      ++ stage_texts seb (S i) steps'
  end.

Definition caller_texts (global : option (list string))
    (seb : option (gmap nat (list string))) (steps : list step) : list string :=
  global_text global ++ stage_texts seb 1 steps.

(** The literal-block files a run of [main_assemble] reads, in the order in
    which it reads them: the global ones, then those of the steps 1 to 4 in
    compound mode. *)
Definition block_paths (l : option (list string)) : list string :=
  if truthy_list l then default [] l else [].

Definition step_block_paths (a : args) (ks : list nat) : list string :=
  flat_map (fun k => block_paths (extra_block_k (a_step a k))) ks.

Definition referenced_blocks (a : args) : list string :=
  if _any_numbered_options_present a
  then block_paths (a_extra_block a) ++ step_block_paths a (seq 1 4)
  else block_paths (a_extra_block a).

(** [main_assemble] goes on to assemble a document: it is in compound mode,
    or one of job, method and basis is given. *)
Definition assembles (a : args) : bool :=
  _any_numbered_options_present a
  || truthy (a_job a) || truthy (a_method a) || truthy (a_basis a).

(** ** Examples *)

Definition no_step : step_args :=
  StepArgs None None None 10 None None None None None None.

Definition args0 : args :=
  {| a_method := Some "wB97X-D4"; a_basis := Some "def2-TZVPPD";
     a_job := Some "optfreq"; a_nstates := 10; a_cpcm := None; a_smd := None;
     a_grid := Some "DEFGRID3"; a_moinp := None; a_extra := None;
     a_extra_block := None; a_charge := 0; a_mult := 1; a_pal := 32;
     a_maxcore_mb := 4000; a_pal_style := "block"; a_step := fun _ => no_step |}.

(** A single-step run that refers to one literal block. *)
Definition args_block : args :=
  {| a_method := Some "wB97X-D4"; a_basis := Some "def2-TZVPPD";
     a_job := Some "opt"; a_nstates := 10; a_cpcm := None; a_smd := None;
     a_grid := Some "DEFGRID3"; a_moinp := None; a_extra := None;
     a_extra_block := Some ["geom.txt"]; a_charge := 0; a_mult := 1;
     a_pal := 32; a_maxcore_mb := 4000; a_pal_style := "block";
     a_step := fun _ => no_step |}.

(** The two steps of the compound example of the specification. *)
Definition step_optfreq : step :=
  Step "optfreq" (Some "wB97X-D4") (Some "def2-SVPD") (Some "DEFGRID3")
    None None [] None 10.

Definition step_sp : step :=
  Step "sp" (Some "wB97M-V") (Some "def2-TZVPPD") (Some "DEFGRID3")
    None None [] None 10.

Definition world0 : world := World ∅ [].

(** An operating system that refuses nothing. *)
Definition never_refused : refusal := λ _ _, None.

(** The text of a path before its last slash, if it has one: the parent of
    a plain relative path.  [cur] is the part of the path read so far. *)
Fixpoint parent_from (cur path : string) : option string :=
  match path with
  | EmptyString => None
  | String c r =>
      match parent_from (cur +:+ String c EmptyString) r with
      | Some d => Some d
      | None => if Ascii.eqb c "/"%char then Some cur else None
      end
  end.

Definition parent (path : string) : option string :=
  parent_from EmptyString path.

(** An operating system whose [mkdir] finds a regular file in the way: the
    call raises [FileExistsError] when the parent of the path is a file. *)
Definition file_in_the_way : refusal := λ w path,
  match parent path with
  | Some d =>
      if bool_decide (is_Some (files w !! d))
      then Some (FileExistsError ("[Errno 17] File exists: '" +:+ d +:+ "'"))
      else None
  | None => None
  end.

(** ** The rest of [main] and the NEB writer (source lines 225-274, 377-482) *)


(** The loop of the folder mode (lines 434-466) over the matched geometry
    files, each given as its name [xyz.name] and its output path. *)
Fixpoint folder_loop (a : args) (overwrite compound_mode : bool)
    (global_blocks : list string)
    (step_blocks : option (gmap nat (list string)))
    (steps : list step) (targets : list (string * string)) : Py unit :=
  match targets with
  | [] => mret tt
  | (xyz_name, outpath) :: targets' =>
      found ← path_exists outpath;
      (if found && negb overwrite
       then
         print ("[SKIP] " +:+ outpath
                +:+ " exists. Use --overwrite to replace.")
       else if compound_mode
       then
         write_compound outpath xyz_name (a_charge a) (a_mult a) steps
           (a_pal a) (a_maxcore_mb a) (a_pal_style a)
           (Some global_blocks) step_blocks
       else
         write_single_step outpath xyz_name (a_charge a) (a_mult a)
           (py_or (a_method a) (Some "wB97X-D4"))
           (py_or (a_basis a) (Some "def2-TZVPPD"))
           (the (py_or (a_job a) (Some "sp")))
           (a_grid a) (a_cpcm a) (a_smd a) (a_extra a)
           (a_pal a) (a_maxcore_mb a) (a_nstates a) (a_moinp a)
           (a_pal_style a) (Some global_blocks));;
      folder_loop a overwrite compound_mode global_blocks step_blocks steps
        targets'
  end.

(** The folder mode of [main] (lines 421-467) for the matched files
    [targets]; [pattern] and [folder] are [args.pattern] and [args.folder].
    The test of lines 417-419, which refuses [--name] with [--folder], comes
    before and is not part of it.  Outside the compound mode the source sets
    [steps] to [None]; the list is not read then, and is empty here. *)
Definition main_folder (a : args) (overwrite : bool) (pattern folder : string)
    (targets : list (string * string)) : Py Z :=
  match targets with
  | [] =>
      print ("[WARN] No files matched " +:+ pattern +:+ " in " +:+ folder);;
      mret 0%Z
  | _ =>
      let compound_mode := _any_numbered_options_present a in
      global_blocks ← _collect_global_extra_blocks a;
      step_blocks ←
        (if compound_mode
         then m ← _collect_step_extra_blocks a; mret (Some m)
         else mret None);
      let steps := if compound_mode then _collect_compound_steps a else [] in
      folder_loop a overwrite compound_mode global_blocks step_blocks steps
        targets;;
      mret 0%Z
  end.

(** The test of line 377 and the mode of line 378, from [args.job] and
    [args.neb_mode]. *)
Definition neb_selected (job neb_mode : option string) : bool :=
  bool_decide (job ∈ [Some "neb"; Some "nebci"; Some "nebts"])
  || truthy neb_mode.

Definition neb_mode_of (job neb_mode : option string) : string :=
  if truthy neb_mode then the neb_mode
  else if bool_decide (job = Some "neb") then "neb"
  else if bool_decide (job = Some "nebci") then "neb-ci"
  else "neb-ts".

(** The dictionary of line 243. *)
Definition NEB_JOB_KEY : gmap string string :=
  list_to_map [ ("neb", "neb"); ("neb-ci", "nebci"); ("neb-ts", "nebts") ].

Section NEB.

(** The spring constant is a Python [float]; how [str] prints one is left
    open. *)
Variable float : Type.
Variable str_float : float → string.

(** The list [chunks] of [write_neb_input] (lines 244-267) for the job key
    found at line 243. *)
Definition neb_chunks (job_key : string) (method basis grid cpcm smd : option string)
    (extra : option (list string)) (reactant_xyz product_xyz : string)
    (ts_xyz : option string) (charge mult pal maxcore_mb : Z)
    (pal_style : string) (springconst : float) (maxiter nimages : Z)
  : list string :=
  let extra_tokens := _parse_extras extra in
  let header := _make_bang_line method basis job_key grid cpcm smd extra_tokens None in
  let blocks := [] in
  let header :=
    if String.eqb pal_style "bang"
    then header +:+ nl +:+ nl +:+ "! PAL" +:+ str_int pal else header in
  let blocks :=
    if String.eqb pal_style "bang" then blocks else blocks ++ [_pal_block pal] in
  let blocks := blocks ++ [_maxcore_block maxcore_mb] in
  let blocks := blocks ++ [_scf_block 300] in
  let neb_lines := ["%NEB"; "  NEB_END_XYZFILE " +:+ dq +:+ product_xyz +:+ dq] in
  let neb_lines :=
    if truthy ts_xyz
    then neb_lines ++ ["  NEB_TS_XYZFILE " +:+ dq +:+ the ts_xyz +:+ dq]
    else neb_lines in
  let neb_lines := neb_lines ++ ["  SpringConst " +:+ str_float springconst] in
  let neb_lines := neb_lines ++ ["  MAXITER " +:+ str_int maxiter] in
  let neb_lines := neb_lines ++ ["  NImages " +:+ str_int nimages] in
  let neb_lines := neb_lines ++ ["end"] in
  [ header; join nl blocks; join nl neb_lines;
    xyz_line charge mult reactant_xyz +:+ nl ].

(** The text that [write_neb_input] writes (line 273), or [None] when the
    lookup of [mode] at line 243 raises [KeyError].  The output path, which
    the function builds from [outdir] and [name], is left out. *)
Definition neb_text (mode : string) (method basis grid cpcm smd : option string)
    (extra : option (list string)) (reactant_xyz product_xyz : string)
    (ts_xyz : option string) (charge mult pal maxcore_mb : Z)
    (pal_style : string) (springconst : float) (maxiter nimages : Z)
  : option string :=
  match NEB_JOB_KEY !! mode with
  | None => None
  | Some job_key =>
      let chunks :=
        neb_chunks job_key method basis grid cpcm smd extra reactant_xyz
          product_xyz ts_xyz charge mult pal maxcore_mb pal_style springconst
          maxiter nimages in
      Some (join (nl +:+ nl) (List.filter nonempty chunks) +:+ nl)
  end.

End NEB.

(** ** Vocabulary of the further properties *)

(** A character that is neither white space nor a comma. *)
Definition token_char (c : ascii) : bool :=
  negb (is_space c) && negb (Ascii.eqb c ","%char).

(** A non-empty string of such characters. *)
Definition clean_token (t : string) : Prop :=
  nonempty t = true ∧ all_chars token_char t = true.

(** The tokens that [_parse_extras] takes from one item (lines 46-49). *)
Definition item_tokens (item : string) : list string :=
  List.filter nonempty (map strip (split (replace_comma item))).

(** The block that [_read_text_file] makes of the file at [p]: its text as
    text mode reads it, the trailing white space replaced by one line
    feed. *)
Definition block_of (w : world) (p : string) : string :=
  rstrip (universal_newlines (default EmptyString (files w !! p))) +:+ nl.

(** A two-step compound run: [--job1 optfreq --job2 sp --extra-block2 s2.txt]. *)
Definition args_two_steps : args :=
  {| a_method := None; a_basis := None; a_job := None; a_nstates := 10;
     a_cpcm := None; a_smd := None; a_grid := Some "DEFGRID3";
     a_moinp := None; a_extra := None; a_extra_block := None;
     a_charge := 0; a_mult := 1; a_pal := 32; a_maxcore_mb := 4000;
     a_pal_style := "bang";
     a_step := fun k =>
       match k with
       | 1 => StepArgs (Some "optfreq") None None 10 None None None None None None
       | 2 => StepArgs (Some "sp") None None 10 None None None None None
                (Some ["s2.txt"])
       | _ => no_step
       end |}.

(** A world whose only file is the literal block [s2.txt]. *)
Definition world_s2 : world :=
  World {[ "s2.txt" := "%geom" +:+ nl +:+ "end" +:+ nl +:+ nl ]} [].

(** A step with another number of excited states. *)
Definition with_nstates (n : Z) (st : step) : step :=
  {| st_job := st_job st; st_method := st_method st; st_basis := st_basis st;
     st_grid := st_grid st; st_cpcm := st_cpcm st; st_smd := st_smd st;
     st_extra_tokens := st_extra_tokens st; st_moinp := st_moinp st;
     st_nstates := n |}.

(** * Properties *)

(** ** Strings and token lists *)

Lemma nonempty_true s : nonempty s = true ↔ s ≠ EmptyString.
Proof.
  unfold nonempty. destruct (String.eqb_spec s EmptyString); simpl; split;
    intros; congruence.
Qed.

Lemma nonempty_decide s : nonempty s = bool_decide (s ≠ EmptyString).
Proof.
  destruct (nonempty s) eqn:E; symmetry.
  - apply bool_decide_eq_true, nonempty_true, E.
  - apply bool_decide_eq_false. intros H. apply nonempty_true in H. congruence.
Qed.

Lemma str_append_assoc (a b c : string) : (a +:+ b) +:+ c = a +:+ b +:+ c.
Proof.
  induction a as [|x a IH]; [reflexivity|].
  change (String x ((a +:+ b) +:+ c) = String x (a +:+ b +:+ c)).
  now f_equal.
Qed.

Lemma first_char_append_cons c r s : first_char (String c r +:+ s) = Some c.
Proof. reflexivity. Qed.

Lemma last_char_append_nonempty s c r :
  last_char (s +:+ String c r) = last_char (String c r).
Proof.
  induction s as [|x s IH]; [reflexivity|].
  simpl. rewrite IH. simpl. destruct (last_char r); reflexivity.
Qed.

Lemma count_tok_app p l1 l2 :
  count_tok p (l1 ++ l2) = count_tok p l1 + count_tok p l2.
Proof. unfold count_tok. now rewrite List.filter_app, length_app. Qed.

Lemma count_tok_cons p x l :
  count_tok p (x :: l) = (if p x then 1 else 0) + count_tok p l.
Proof. unfold count_tok. simpl. now destruct (p x). Qed.

Lemma count_tok_none p l :
  (∀ t, t ∈ l → p t = false) → count_tok p l = 0.
Proof.
  unfold count_tok. induction l as [|x l IH]; intros H; [reflexivity|].
  simpl. rewrite (H x) by set_solver. apply IH. intros t Ht. apply H. set_solver.
Qed.

Lemma count_tok_line_tokens p l :
  p EmptyString = false → count_tok p (line_tokens l) = count_tok p l.
Proof.
  intros Hp. unfold count_tok, line_tokens.
  induction l as [|x l IH]; [reflexivity|]. simpl.
  destruct (nonempty x) eqn:E; simpl.
  - destruct (p x); simpl; now rewrite IH.
  - assert (x = EmptyString) as ->.
    { destruct (String.eqb_spec x EmptyString) as [->|]; [reflexivity|].
      apply nonempty_true in n. congruence. }
    now rewrite Hp.
Qed.

Lemma line_tokens_app l1 l2 :
  line_tokens (l1 ++ l2) = line_tokens l1 ++ line_tokens l2.
Proof. apply List.filter_app. Qed.

Lemma line_tokens_id l :
  (∀ t, t ∈ l → t ≠ EmptyString) → line_tokens l = l.
Proof.
  unfold line_tokens. induction l as [|x l IH]; intros H; [reflexivity|].
  simpl. assert (nonempty x = true) as -> by (apply nonempty_true, H; set_solver).
  f_equal. apply IH. intros t Ht. apply H. set_solver.
Qed.

(** ** The directive line, segment by segment *)

Lemma method_segment m l :
  (if truthy m then l ++ [the m] else l) = l ++ Spec.method_token m.
Proof.
  destruct m as [s|]; simpl; [|now rewrite app_nil_r].
  rewrite nonempty_decide. unfold Spec.method_token.
  case_bool_decide; case_decide; try congruence; now rewrite ?app_nil_r.
Qed.

Lemma basis_segment b l :
  (if truthy b && negb (bool_decide (the b ∈ ["None"; "-"; "NA"]))
   then l ++ [the b] else l) = l ++ Spec.basis_token b.
Proof.
  destruct b as [s|]; simpl; [|now rewrite app_nil_r].
  rewrite nonempty_decide. unfold Spec.basis_token, Spec.sentinels.
  repeat case_bool_decide; case_decide; simpl; rewrite ?app_nil_r;
    try reflexivity; tauto.
Qed.

Lemma grid_segment g l :
  (if truthy g then l ++ [the g] else l) = l ++ Spec.grid_token g.
Proof. apply method_segment. Qed.

Lemma is_scf_override_spec t :
  is_scf_override t = true ↔ Spec.convergence_override t.
Proof.
  unfold is_scf_override, startswith, Spec.convergence_override,
    Spec.ci_startswith.
  rewrite orb_true_iff. reflexivity.
Qed.

Lemma existsb_scf_override e :
  existsb is_scf_override e = bool_decide (Exists Spec.convergence_override e).
Proof.
  destruct (existsb is_scf_override e) eqn:E; symmetry.
  - apply bool_decide_eq_true. apply existsb_exists in E as (t & Hin & Ht).
    apply Exists_exists. exists t. split; [now apply list_elem_of_In|].
    now apply is_scf_override_spec.
  - apply bool_decide_eq_false. intros (t & Hin & Ht)%Exists_exists.
    apply is_scf_override_spec in Ht.
    assert (existsb is_scf_override e = true); [|congruence].
    apply existsb_exists. exists t. split; [now apply list_elem_of_In|done].
Qed.

Lemma convergence_segment e l :
  (if negb (existsb is_scf_override e) then l ++ ["TightSCF"] else l)
  = l ++ Spec.convergence_token e.
Proof.
  rewrite existsb_scf_override. unfold Spec.convergence_token.
  case_bool_decide; case_decide; simpl; rewrite ?app_nil_r; try reflexivity;
    tauto.
Qed.

Lemma JOB_MAP_unknown job : job ∉ Spec.job_kinds → JOB_MAP !! job = None.
Proof.
  intros H. unfold JOB_MAP. apply not_elem_of_list_to_map_1. exact H.
Qed.

Lemma JOB_MAP_get_table job : JOB_MAP_get job = Spec.job_keywords job.
Proof.
  unfold Spec.job_keywords.
  repeat (case_decide; [subst job; vm_compute; reflexivity|]).
  unfold JOB_MAP_get. rewrite JOB_MAP_unknown; [reflexivity|].
  unfold Spec.job_kinds. intros Hin.
  each_elem Hin ltac:(congruence).
Qed.

Lemma cpcm_segment c l :
  (if truthy c then l ++ ["CPCM(" +:+ the c +:+ ")"] else l)
  = l ++ Spec.cpcm_token c.
Proof.
  destruct c as [s|]; simpl; [|now rewrite app_nil_r].
  rewrite nonempty_decide. unfold Spec.cpcm_token.
  case_bool_decide; case_decide; try congruence; now rewrite ?app_nil_r.
Qed.

Lemma smd_segment c l :
  (if truthy c then l ++ ["SMD(" +:+ the c +:+ ")"] else l)
  = l ++ Spec.smd_token c.
Proof.
  destruct c as [s|]; simpl; [|now rewrite app_nil_r].
  rewrite nonempty_decide. unfold Spec.smd_token.
  case_bool_decide; case_decide; try congruence; now rewrite ?app_nil_r.
Qed.

Lemma forced_segment (f : option (list string)) (l : list string) :
  (if truthy_list f then l ++ default [] f else l) = l ++ Spec.forced_tokens f.
Proof. destruct f as [[|x f]|]; simpl; now rewrite ?app_nil_r. Qed.

Lemma bang_toks_segments m b j g c s e f :
  _make_bang_toks m b j g c s e f = Spec.directive_tokens m b j g c s e f.
Proof.
  unfold _make_bang_toks. cbv zeta.
  rewrite forced_segment, smd_segment, cpcm_segment, JOB_MAP_get_table,
    convergence_segment, grid_segment, basis_segment, method_segment.
  unfold Spec.directive_tokens. simpl. now rewrite <- !app_assoc.
Qed.

Lemma join_bang_line_tokens toks :
  _join_bang_tokens toks = "! " +:+ join " " (line_tokens toks).
Proof. reflexivity. Qed.

Lemma line_tokens_drop_falsy toks : line_tokens toks = Spec.drop_falsy toks.
Proof.
  unfold line_tokens, Spec.drop_falsy. apply List.filter_ext. intros t.
  apply nonempty_decide.
Qed.

Lemma bang_line_tokens m b j g c s e f :
  _make_bang_line m b j g c s e f
  = "! " +:+ join " " (line_tokens (Spec.directive_tokens m b j g c s e f)).
Proof.
  unfold _make_bang_line. now rewrite bang_toks_segments, join_bang_line_tokens.
Qed.

Lemma head_tokens_nonempty m b g t :
  t ∈ Spec.head_tokens m b g → t ≠ EmptyString.
Proof.
  unfold Spec.head_tokens, Spec.method_token, Spec.basis_token,
    Spec.grid_token.
  destruct m as [m|], b as [b|], g as [g|]; repeat case_decide;
    rewrite ?app_nil_r; simpl; intros Hin;
    each_elem Hin ltac:(tauto).
Qed.

Lemma convergence_token_elem e t :
  t ∈ Spec.convergence_token e → t = "TightSCF".
Proof.
  unfold Spec.convergence_token. case_decide; intros Hin.
  - now apply elem_of_nil in Hin.
  - apply elem_of_cons in Hin as [->|Hin]; [reflexivity|].
    now apply elem_of_nil in Hin.
Qed.

Lemma solvent_tokens_first_char c s t :
  t ∈ Spec.solvent_tokens c s →
  first_char t = Some "C"%char ∨ first_char t = Some "S"%char.
Proof.
  unfold Spec.solvent_tokens, Spec.cpcm_token, Spec.smd_token.
  destruct c as [c|], s as [s|]; repeat case_decide; simpl; intros Hin;
    each_elem Hin ltac:(simpl; tauto).
Qed.

Lemma job_keywords_elem j t :
  t ∈ Spec.job_keywords j →
  t ∈ ["Opt"; "Freq"; "OptTS"; "NEB"; "NEB-CI"; "NEB-TS"].
Proof.
  unfold Spec.job_keywords. repeat case_decide; intros Hin;
    each_elem Hin ltac:(repeat first [apply list_elem_of_here | apply list_elem_of_further]).
Qed.

Lemma prefix_cons_ne a p b s :
  a ≠ b → String.prefix (String a p) (String b s) = false.
Proof.
  intros H.
  change (String.prefix (String a p) (String b s))
    with (if ascii_dec a b then String.prefix p s else false).
  destruct (ascii_dec a b); [contradiction|reflexivity].
Qed.

Lemma is_scf_override_first_char t c :
  first_char t = Some c →
  lower_char c ≠ "t"%char → lower_char c ≠ "l"%char →
  is_scf_override t = false.
Proof.
  destruct t as [|x r]; simpl; [discriminate|]. intros [= ->] Ht Hl.
  unfold is_scf_override, startswith.
  change (lower (String c r)) with (String (lower_char c) (lower r)).
  rewrite !prefix_cons_ne by congruence. reflexivity.
Qed.

Lemma is_moread_first_char t c :
  first_char t = Some c → lower_char c ≠ "m"%char → is_moread t = false.
Proof.
  destruct t as [|x r]; simpl; [discriminate|]. intros [= ->] Hm.
  unfold is_moread. apply String.eqb_neq. simpl. congruence.
Qed.

Lemma job_keywords_not_override j t :
  t ∈ Spec.job_keywords j → is_scf_override t = false.
Proof.
  intros Hin%job_keywords_elem.
  each_elem Hin ltac:(vm_compute; reflexivity).
Qed.

Lemma solvent_tokens_not_override c s t :
  t ∈ Spec.solvent_tokens c s → is_scf_override t = false.
Proof.
  intros [H|H]%solvent_tokens_first_char;
    apply (is_scf_override_first_char _ _ H); vm_compute; discriminate.
Qed.

Lemma convergence_token_override e :
  Exists Spec.convergence_override e → Spec.convergence_token e = [].
Proof. intros H. unfold Spec.convergence_token. now case_decide. Qed.

Lemma convergence_token_default e :
  ¬ Exists Spec.convergence_override e →
  Spec.convergence_token e = ["TightSCF"].
Proof. intros H. unfold Spec.convergence_token. now case_decide. Qed.

(** C1.  The directive line is the marker followed by the space-joined
    non-empty tokens of the nine segments in their fixed order: method, basis
    (unless a sentinel), grid, default convergence token (unless overridden),
    job-kind keywords, CPCM, SMD, extra tokens, forced tokens; and the line of
    the worked example of the specification is the one it gives. *)
Theorem C1_directive_line_order :
  (∀ m b j g c s e f,
      _make_bang_line m b j g c s e f = Spec.directive_line m b j g c s e f)
  ∧ _make_bang_line (Some "wB97X-D4") (Some "def2-TZVPPD") "optfreq"
      (Some "DEFGRID3") None None [] None
    = "! wB97X-D4 def2-TZVPPD DEFGRID3 TightSCF Opt Freq".
Proof.
  split.
  - intros. rewrite bang_line_tokens. unfold Spec.directive_line, join.
    now rewrite line_tokens_drop_falsy.
  - vm_compute. reflexivity.
Qed.

(** C10.  A job kind outside the table is no key of [JOB_MAP]; the lookup
    then yields the empty keyword list, and the directive line is built all
    the same, with no job keyword between the convergence token and the
    solvent tokens. *)
Theorem C10_unknown_job_kind (job : string) :
  job ∉ Spec.job_kinds →
  JOB_MAP !! job = None
  ∧ JOB_MAP_get job = []
  ∧ ∀ m b g c s e f,
      _make_bang_toks m b job g c s e f
      = Spec.head_tokens m b g ++ Spec.convergence_token e
        ++ Spec.solvent_tokens c s ++ e ++ Spec.forced_tokens f
      ∧ _make_bang_line m b job g c s e f
        = "! " +:+ join " "
            (line_tokens (Spec.head_tokens m b g ++ Spec.convergence_token e
               ++ Spec.solvent_tokens c s ++ e ++ Spec.forced_tokens f)).
Proof.
  intros Hjob. pose proof (JOB_MAP_unknown job Hjob) as Hnone.
  assert (JOB_MAP_get job = []) as Hget by (unfold JOB_MAP_get; now rewrite Hnone).
  split; [exact Hnone|]. split; [exact Hget|]. intros.
  assert (_make_bang_toks m b job g c s e f
          = Spec.head_tokens m b g ++ Spec.convergence_token e
            ++ Spec.solvent_tokens c s ++ e ++ Spec.forced_tokens f) as Htoks.
  { rewrite bang_toks_segments. unfold Spec.directive_tokens.
    rewrite <- JOB_MAP_get_table, Hget.
    unfold Spec.head_tokens, Spec.solvent_tokens. simpl.
    now rewrite <- !app_assoc. }
  split; [exact Htoks|].
  unfold _make_bang_line. now rewrite Htoks, join_bang_line_tokens.
Qed.

(** C10 at the job kind [scan]. *)
Lemma C10_unknown_job_kind_witness :
  JOB_MAP !! "scan" = None
  ∧ JOB_MAP_get "scan" = []
  ∧ _make_bang_line (Some "PBE0") (Some "def2-SVP") "scan" (Some "DEFGRID3")
      None None [] None
    = "! PBE0 def2-SVP DEFGRID3 TightSCF".
Proof.
  assert ("scan" ∉ Spec.job_kinds) as H.
  { unfold Spec.job_kinds. intros Hin.
    no_elem Hin. }
  destruct (C10_unknown_job_kind "scan" H) as (H1 & H2 & H3).
  split; [exact H1|]. split; [exact H2|].
  destruct (H3 (Some "PBE0") (Some "def2-SVP") (Some "DEFGRID3") None None [] None)
    as [_ ->].
  vm_compute. reflexivity.
Defined.

(** ** The default convergence token *)

Lemma count_override_tail j c s :
  count_tok is_scf_override (Spec.job_keywords j ++ Spec.solvent_tokens c s) = 0.
Proof.
  apply count_tok_none. intros t [H|H]%elem_of_app.
  - now apply job_keywords_not_override in H.
  - now apply solvent_tokens_not_override in H.
Qed.

Lemma count_override_extras_none e :
  ¬ Exists Spec.convergence_override e → count_tok is_scf_override e = 0.
Proof.
  intros H. apply count_tok_none. intros t Ht.
  destruct (is_scf_override t) eqn:E; [|reflexivity].
  exfalso. apply H, Exists_exists. exists t. split; [exact Ht|].
  now apply is_scf_override_spec.
Qed.

(** C3.  When an extra token starts, letter case apart, with [tightscf] or
    [loosescf] (in particular when one equals [tightscf], letter case apart),
    the builder inserts no default convergence token: the grid token is
    followed at once by the job keywords, and every convergence token of the
    line is one the caller wrote.  When no extra token does, [TightSCF] is
    inserted between the grid token and the job keywords, once. *)
Theorem C3_default_convergence_token m b j g c s (e : list string) f :
  let head := Spec.head_tokens m b g in
  let tail :=
    Spec.job_keywords j ++ Spec.solvent_tokens c s ++ e ++ Spec.forced_tokens f in
  let toks := _make_bang_toks m b j g c s e f in
  (Exists Spec.convergence_override e →
     toks = head ++ tail
     ∧ _make_bang_line m b j g c s e f = _join_bang_tokens (head ++ tail)
     ∧ count_tok is_scf_override (line_tokens toks)
       = count_tok is_scf_override (head ++ e ++ Spec.forced_tokens f))
  ∧ ((∃ t, t ∈ e ∧ lower t = "tightscf") →
     toks = head ++ tail
     ∧ _make_bang_line m b j g c s e f = _join_bang_tokens (head ++ tail))
  ∧ (¬ Exists Spec.convergence_override e →
     toks = head ++ ["TightSCF"] ++ tail
     ∧ _make_bang_line m b j g c s e f
       = _join_bang_tokens (head ++ ["TightSCF"] ++ tail)
     ∧ count_tok is_scf_override (line_tokens toks)
       = 1 + count_tok is_scf_override (head ++ Spec.forced_tokens f)).
Proof.
  intros head tail toks.
  assert (toks = head ++ Spec.convergence_token e ++ tail) as Htoks.
  { unfold toks, head, tail. rewrite bang_toks_segments.
    unfold Spec.directive_tokens, Spec.head_tokens, Spec.solvent_tokens.
    now rewrite <- !app_assoc. }
  assert (Exists Spec.convergence_override e →
          toks = head ++ tail
          ∧ _make_bang_line m b j g c s e f = _join_bang_tokens (head ++ tail))
    as Hover.
  { intros H. rewrite (convergence_token_override e H) in Htoks. simpl in Htoks.
    split; [exact Htoks|]. unfold _make_bang_line. fold toks. now rewrite Htoks. }
  split; [|split].
  - intros H. destruct (Hover H) as [H1 H2]. split; [exact H1|].
    split; [exact H2|].
    rewrite count_tok_line_tokens by reflexivity. rewrite H1. unfold tail.
    rewrite !count_tok_app.
    pose proof (count_override_tail j c s) as H0.
    rewrite count_tok_app in H0. lia.
  - intros (t & Hin & Ht). apply Hover. apply Exists_exists. exists t.
    split; [exact Hin|]. left. unfold Spec.ci_startswith. now rewrite Ht.
  - intros H. rewrite (convergence_token_default e H) in Htoks.
    split; [exact Htoks|].
    split; [unfold _make_bang_line; fold toks; now rewrite Htoks|].
    rewrite count_tok_line_tokens by reflexivity. rewrite Htoks. unfold tail.
    rewrite !count_tok_app.
    pose proof (count_override_tail j c s) as H0.
    rewrite count_tok_app in H0.
    rewrite (count_override_extras_none e H).
    change (count_tok is_scf_override ["TightSCF"]) with 1. lia.
Qed.

(** C3 at the extra tokens of the two-step example of the source, with and
    without [tightSCF]. *)
Lemma C3_default_convergence_token_witness :
  _make_bang_line (Some "wB97X-D4") (Some "def2-SVPD") "optfreq"
    (Some "DEFGRID3") None (Some "water") ["SlowConv"; "tightSCF"] None
  = "! wB97X-D4 def2-SVPD DEFGRID3 Opt Freq SMD(water) SlowConv tightSCF"
  ∧ _make_bang_line (Some "wB97X-D4") (Some "def2-SVPD") "optfreq"
      (Some "DEFGRID3") None (Some "water") ["SlowConv"] None
    = "! wB97X-D4 def2-SVPD DEFGRID3 TightSCF Opt Freq SMD(water) SlowConv".
Proof.
  split.
  - destruct (C3_default_convergence_token (Some "wB97X-D4") (Some "def2-SVPD")
                "optfreq" (Some "DEFGRID3") None (Some "water")
                ["SlowConv"; "tightSCF"] None) as (_ & H & _).
    destruct H as [_ ->].
    + exists "tightSCF". split; [|vm_compute; reflexivity].
      apply list_elem_of_further, list_elem_of_here.
    + vm_compute. reflexivity.
  - destruct (C3_default_convergence_token (Some "wB97X-D4") (Some "def2-SVPD")
                "optfreq" (Some "DEFGRID3") None (Some "water")
                ["SlowConv"] None) as (_ & _ & H).
    destruct H as (_ & -> & _).
    + apply (bool_decide_unpack _). vm_compute. exact I.
    + vm_compute. reflexivity.
Defined.

(** ** Job keywords and solvent tokens *)

Lemma str_append_nil_r (s : string) : s +:+ EmptyString = s.
Proof.
  induction s as [|x s IH]; [reflexivity|].
  change (String x (s +:+ EmptyString) = String x s). now f_equal.
Qed.

Lemma concat_cons_cons sep (x y : string) l :
  String.concat sep (x :: y :: l) = x +:+ sep +:+ String.concat sep (y :: l).
Proof. reflexivity. Qed.

Lemma concat_adjacent sep l1 (x y : string) l2 :
  ∃ L R, String.concat sep (l1 ++ x :: y :: l2) = L +:+ x +:+ sep +:+ y +:+ R.
Proof.
  induction l1 as [|a l1 IH].
  - exists EmptyString. simpl app. rewrite concat_cons_cons.
    destruct l2 as [|z l2].
    + exists EmptyString. simpl. now rewrite str_append_nil_r.
    + exists (sep +:+ String.concat sep (z :: l2)). now rewrite concat_cons_cons.
  - destruct IH as (L & R & IH). exists (a +:+ sep +:+ L), R.
    assert (∃ z l, l1 ++ x :: y :: l2 = z :: l) as (z & l & Hl)
      by (destruct l1; simpl; eauto).
    simpl app. rewrite Hl, concat_cons_cons, <- Hl, IH.
    now rewrite !str_append_assoc.
Qed.

(** *** The words of a line *)

Lemma split_from_sep cur a b :
  split_from cur (a +:+ String " " b)
  = split_from cur a ++ split_from EmptyString b.
Proof.
  revert cur. induction a as [|x a IH]; intros cur.
  - change (split_from cur (EmptyString +:+ String " " b))
      with (if is_space " "
            then (if nonempty cur then cur :: split_from EmptyString b
                  else split_from EmptyString b)
            else split_from (cur +:+ " ") b).
    change (is_space " ") with true. cbv iota.
    change (split_from cur EmptyString)
      with (if nonempty cur then [cur] else []).
    now destruct (nonempty cur).
  - change (split_from cur (String x a +:+ String " " b))
      with (if is_space x
            then (if nonempty cur
                  then cur :: split_from EmptyString (a +:+ String " " b)
                  else split_from EmptyString (a +:+ String " " b))
            else split_from (cur +:+ String x EmptyString)
                   (a +:+ String " " b)).
    change (split_from cur (String x a))
      with (if is_space x
            then (if nonempty cur then cur :: split_from EmptyString a
                  else split_from EmptyString a)
            else split_from (cur +:+ String x EmptyString) a).
    destruct (is_space x); [destruct (nonempty cur)|]; now rewrite IH.
Qed.

(** Joined by blanks, tokens split into their words. *)
Lemma split_concat l : split (String.concat " " l) = flat_map split l.
Proof.
  unfold split. induction l as [|t l IH]; [reflexivity|].
  destruct l as [|t' l].
  - simpl. now rewrite app_nil_r.
  - rewrite concat_cons_cons.
    change (" " +:+ String.concat " " (t' :: l))
      with (String " " (String.concat " " (t' :: l))).
    now rewrite split_from_sep, IH.
Qed.

Lemma flat_map_split_line_tokens l :
  flat_map split (line_tokens l) = flat_map split l.
Proof.
  induction l as [|t l IH]; [reflexivity|]. unfold line_tokens in *. simpl.
  destruct (nonempty t) eqn:E; simpl; rewrite IH; [reflexivity|].
  destruct t; [reflexivity|discriminate E].
Qed.

(** The words of a directive line: the marker, then the words of the
    tokens in their order. *)
Lemma split_bang_line toks :
  split (_join_bang_tokens toks) = "!" :: flat_map split toks.
Proof.
  unfold _join_bang_tokens, join. fold (line_tokens toks).
  rewrite <- flat_map_split_line_tokens, <- split_concat.
  generalize (String.concat " " (line_tokens toks)). intros x.
  unfold split.
  change ("! " +:+ x) with ("!" +:+ String " " x).
  now rewrite split_from_sep.
Qed.

Lemma count_tok_existsb p l : existsb p l = false → count_tok p l = 0.
Proof.
  intros H. apply count_tok_none. intros t Ht.
  destruct (p t) eqn:E; [|reflexivity].
  assert (existsb p l = true); [|congruence].
  apply existsb_exists. exists t. split; [now apply list_elem_of_In|exact E].
Qed.

Lemma no_word_app p l1 l2 :
  no_word p (l1 ++ l2) ↔ no_word p l1 ∧ no_word p l2.
Proof.
  unfold no_word. split.
  - intros H. split; intros t Ht; apply H; rewrite elem_of_app; tauto.
  - intros [H1 H2] t [Ht|Ht]%elem_of_app; auto.
Qed.

Lemma count_tok_words_none p l :
  no_word p l → count_tok p (flat_map split l) = 0.
Proof.
  induction l as [|t l IH]; intros H; [reflexivity|]. simpl.
  rewrite count_tok_app, IH.
  - rewrite (count_tok_existsb p (split t)); [reflexivity|].
    apply H, list_elem_of_here.
  - intros x Hx. apply H. now apply list_elem_of_further.
Qed.

(** A token that is a word of its own is none of the tokens without such a
    word. *)
Lemma no_word_token p l t :
  no_word p l → t ∈ l → split t = [t] → p t = false.
Proof.
  intros H Hin Hw. specialize (H t Hin). rewrite Hw in H. simpl in H.
  now rewrite orb_false_r in H.
Qed.

(** The tokens that the builder inserts are words. *)
Lemma builtin_words e j t :
  t ∈ Spec.convergence_token e ++ Spec.job_keywords j →
  split t = [t]
  ∧ t ∈ ["TightSCF"; "Opt"; "Freq"; "OptTS"; "NEB"; "NEB-CI"; "NEB-TS"].
Proof.
  intros [H|H]%elem_of_app.
  - apply convergence_token_elem in H as ->.
    split; [vm_compute; reflexivity|apply list_elem_of_here].
  - apply job_keywords_elem in H.
    each_elem H ltac:(split; [vm_compute; reflexivity|];
                      repeat first [apply list_elem_of_here
                                   | apply list_elem_of_further]).
Qed.

Lemma no_word_builtin p e j :
  (∀ t, t ∈ ["TightSCF"; "Opt"; "Freq"; "OptTS"; "NEB"; "NEB-CI"; "NEB-TS"] →
        p t = false) →
  no_word p (Spec.convergence_token e ++ Spec.job_keywords j).
Proof.
  intros Hp t Ht. destruct (builtin_words e j t Ht) as [-> Hin].
  simpl. rewrite (Hp t Hin). reflexivity.
Qed.

Lemma solvent_tokens_not_Opt c s t :
  t ∈ Spec.solvent_tokens c s → String.eqb "Opt" t = false.
Proof.
  intros H%solvent_tokens_first_char. apply String.eqb_neq. intros <-.
  destruct H as [H|H]; discriminate H.
Qed.

Lemma solvent_tokens_nonempty c s t :
  t ∈ Spec.solvent_tokens c s → t ≠ EmptyString.
Proof. intros H%solvent_tokens_first_char ->. destruct H as [H|H]; discriminate H. Qed.

Lemma count_tok_not_eq (k : string) l :
  (∀ t, t ∈ l → t ≠ k) → count_tok (String.eqb k) l = 0.
Proof.
  intros H. apply count_tok_none. intros t Ht. apply String.eqb_neq.
  intros <-. now apply (H k).
Qed.

(** C5, counterexample.  The directive line of a job of kind [opt] that also
    has the extra token [Opt]: the keyword stands twice, among the tokens
    and among the words of the line. *)
Lemma C5_counterexample :
  _make_bang_line (Some "wB97X-D4") (Some "def2-TZVP") "opt" (Some "DEFGRID3")
    None None ["Opt"] None
  = "! wB97X-D4 def2-TZVP DEFGRID3 TightSCF Opt Opt"
  ∧ count_tok (String.eqb "Opt")
      (line_tokens (_make_bang_toks (Some "wB97X-D4") (Some "def2-TZVP") "opt"
                      (Some "DEFGRID3") None None ["Opt"] None)) = 2
  ∧ count_tok (String.eqb "Opt")
      (split (_make_bang_line (Some "wB97X-D4") (Some "def2-TZVP") "opt"
                (Some "DEFGRID3") None None ["Opt"] None)) = 2.
Proof. repeat split; vm_compute; reflexivity. Qed.

(** C5, amended.  For a job of kind [opt] none of whose caller-chosen tokens
    (method, basis, grid, the two solvent tokens, extra and forced tokens)
    holds [Opt] as a word, the directive line, read word by word, holds the
    keyword [Opt] exactly once; it stands after the words of the method,
    basis, grid and default convergence tokens and before the words of the
    solvent tokens, the extra tokens and the forced tokens.  The same holds
    of the tokens the line is joined from. *)
Theorem C5_opt_keyword_once m b g c s (e : list string) f :
  no_word (String.eqb "Opt")
    (Spec.head_tokens m b g ++ Spec.solvent_tokens c s ++ e
     ++ Spec.forced_tokens f) →
  let before := Spec.head_tokens m b g ++ Spec.convergence_token e in
  let after := Spec.solvent_tokens c s ++ e ++ Spec.forced_tokens f in
  let toks := _make_bang_toks m b "opt" g c s e f in
  let line := _make_bang_line m b "opt" g c s e f in
  toks = before ++ ["Opt"] ++ after
  ∧ line_tokens toks = before ++ ["Opt"] ++ line_tokens after
  ∧ count_tok (String.eqb "Opt") (line_tokens toks) = 1
  ∧ line = "! " +:+ join " " (before ++ ["Opt"] ++ line_tokens after)
  ∧ split line
    = "!" :: flat_map split before ++ ["Opt"] ++ flat_map split after
  ∧ count_tok (String.eqb "Opt") (split line) = 1.
Proof.
  intros Hword before after toks line.
  apply no_word_app in Hword as [Hhead Hafter].
  change (no_word (String.eqb "Opt") after) in Hafter.
  assert (∀ t, t ∈ Spec.head_tokens m b g ++ after → t ≠ "Opt") as Huser.
  { intros t Ht ->.
    assert (String.eqb "Opt" "Opt" = false); [|discriminate].
    apply (no_word_token _ (Spec.head_tokens m b g ++ after)); try done.
    now apply no_word_app. }
  assert (toks = before ++ ["Opt"] ++ after) as Htoks.
  { unfold toks, before, after. rewrite bang_toks_segments.
    unfold Spec.directive_tokens, Spec.head_tokens, Spec.solvent_tokens.
    change (Spec.job_keywords "opt") with ["Opt"]. now rewrite <- !app_assoc. }
  assert (line_tokens toks = before ++ ["Opt"] ++ line_tokens after) as Hline.
  { rewrite Htoks, !line_tokens_app. f_equal. apply line_tokens_id.
    intros t [H|H]%elem_of_app.
    - now apply head_tokens_nonempty in H.
    - apply convergence_token_elem in H. now subst t. }
  assert (no_word (String.eqb "Opt") before) as Hbefore.
  { apply no_word_app. split; [exact Hhead|].
    intros t Ht%convergence_token_elem. now subst t. }
  assert (split line
          = "!" :: flat_map split before ++ ["Opt"] ++ flat_map split after)
    as Hsplit.
  { unfold line, _make_bang_line. fold toks.
    now rewrite split_bang_line, Htoks, !flat_map_app. }
  split; [exact Htoks|]. split; [exact Hline|]. split; [|split; [|split]].
  - rewrite count_tok_line_tokens by reflexivity. rewrite Htoks.
    rewrite !count_tok_app.
    rewrite (count_tok_not_eq "Opt" before).
    2:{ intros t [Ht|Ht]%elem_of_app.
        - apply Huser. apply elem_of_app. now left.
        - apply convergence_token_elem in Ht. now subst t. }
    rewrite (count_tok_not_eq "Opt" after).
    2:{ intros t Ht. apply Huser. apply elem_of_app. now right. }
    reflexivity.
  - unfold line, _make_bang_line. fold toks.
    now rewrite join_bang_line_tokens, Hline.
  - exact Hsplit.
  - rewrite Hsplit, count_tok_cons, !count_tok_app.
    rewrite (count_tok_words_none _ _ Hbefore).
    rewrite (count_tok_words_none _ _ Hafter). reflexivity.
Qed.

(** C5 at an optimisation in water with one extra token. *)
Lemma C5_opt_keyword_once_witness :
  _make_bang_line (Some "wB97X-D4") (Some "def2-TZVP") "opt" (Some "DEFGRID3")
    (Some "water") None ["SlowConv"] None
  = "! wB97X-D4 def2-TZVP DEFGRID3 TightSCF Opt CPCM(water) SlowConv"
  ∧ count_tok (String.eqb "Opt")
      (split (_make_bang_line (Some "wB97X-D4") (Some "def2-TZVP") "opt"
                (Some "DEFGRID3") (Some "water") None ["SlowConv"] None))
    = 1.
Proof.
  assert (no_word (String.eqb "Opt")
            (Spec.head_tokens (Some "wB97X-D4") (Some "def2-TZVP")
               (Some "DEFGRID3")
             ++ Spec.solvent_tokens (Some "water") None ++ ["SlowConv"]
             ++ Spec.forced_tokens None)) as Hword.
  { intros t Hin.
    each_elem Hin ltac:(vm_compute; reflexivity). }
  destruct (C5_opt_keyword_once (Some "wB97X-D4") (Some "def2-TZVP")
              (Some "DEFGRID3") (Some "water") None ["SlowConv"] None Hword)
    as (_ & _ & _ & Hline & _ & Hcount).
  split; [|exact Hcount]. rewrite Hline. vm_compute. reflexivity.
Defined.

(** C9.  With both a CPCM and an SMD solvent set, the builder yields a line
    all the same, in which the token [CPCM(..)] is followed at once by the
    token [SMD(..)]. *)
Theorem C9_both_solvents m b j g (c s : option string) (e : list string) f :
  truthy c = true → truthy s = true →
  let cp := "CPCM(" +:+ the c +:+ ")" in
  let sm := "SMD(" +:+ the s +:+ ")" in
  (∃ before after,
      _make_bang_toks m b j g c s e f = before ++ [cp; sm] ++ after
      ∧ line_tokens (_make_bang_toks m b j g c s e f)
        = line_tokens before ++ [cp; sm] ++ line_tokens after)
  ∧ ∃ l r, _make_bang_line m b j g c s e f = l +:+ cp +:+ " " +:+ sm +:+ r.
Proof.
  intros Hc Hs cp sm.
  destruct c as [c|]; [|discriminate]. destruct s as [s|]; [|discriminate].
  simpl in Hc, Hs. apply nonempty_true in Hc, Hs.
  set (before := Spec.head_tokens m b g ++ Spec.convergence_token e
                 ++ Spec.job_keywords j).
  set (after := e ++ Spec.forced_tokens f).
  assert (_make_bang_toks m b j g (Some c) (Some s) e f
          = before ++ [cp; sm] ++ after) as Htoks.
  { rewrite bang_toks_segments.
    unfold Spec.directive_tokens, Spec.cpcm_token, Spec.smd_token, before,
      after, Spec.head_tokens.
    repeat case_decide; try contradiction. simpl. now rewrite <- !app_assoc. }
  assert (line_tokens (_make_bang_toks m b j g (Some c) (Some s) e f)
          = line_tokens before ++ [cp; sm] ++ line_tokens after) as Hline.
  { rewrite Htoks, !line_tokens_app. reflexivity. }
  split; [exists before, after; now split|].
  unfold _make_bang_line. rewrite join_bang_line_tokens, Hline.
  destruct (concat_adjacent " " (line_tokens before) cp sm (line_tokens after))
    as (L & R & HLR).
  exists ("! " +:+ L), R. unfold join. simpl app in *. rewrite HLR.
  now rewrite str_append_assoc.
Qed.

(** C9 at CPCM water and SMD ethanol. *)
Lemma C9_both_solvents_witness :
  _make_bang_line (Some "wB97X-D4") (Some "def2-TZVP") "sp" (Some "DEFGRID3")
    (Some "water") (Some "ethanol") [] None
  = "! wB97X-D4 def2-TZVP DEFGRID3 TightSCF CPCM(water) SMD(ethanol)"
  ∧ ∃ l r, _make_bang_line (Some "wB97X-D4") (Some "def2-TZVP") "sp"
             (Some "DEFGRID3") (Some "water") (Some "ethanol") [] None
           = l +:+ "CPCM(water) SMD(ethanol)" +:+ r.
Proof.
  split; [vm_compute; reflexivity|].
  exact (proj2 (C9_both_solvents (Some "wB97X-D4") (Some "def2-TZVP") "sp"
                  (Some "DEFGRID3") (Some "water") (Some "ethanol") [] None
                  eq_refl eq_refl)).
Defined.

(** ** The restart-read token *)

Lemma convergence_token_moread e :
  Spec.convergence_token (e ++ ["moread"]) = Spec.convergence_token e.
Proof.
  unfold Spec.convergence_token.
  assert (Exists Spec.convergence_override (e ++ ["moread"])
          ↔ Exists Spec.convergence_override e) as H.
  { rewrite Exists_app, Exists_cons, Exists_nil. split; [|tauto].
    intros [H|[H|[]]]; [exact H|]. exfalso.
    apply is_scf_override_spec in H. vm_compute in H. discriminate H. }
  repeat case_decide; tauto.
Qed.

Lemma bang_line_pre m b j g c s e :
  _make_bang_line m b j g c s e None
  = _join_bang_tokens
      ((Spec.head_tokens m b g ++ Spec.convergence_token e
        ++ Spec.job_keywords j ++ Spec.solvent_tokens c s) ++ e).
Proof.
  unfold _make_bang_line. rewrite bang_toks_segments.
  unfold Spec.directive_tokens, Spec.head_tokens, Spec.solvent_tokens. simpl.
  now rewrite app_nil_r, <- !app_assoc.
Qed.

Lemma count_moread_existsb e :
  existsb is_moread e = false → count_tok is_moread e = 0.
Proof. apply count_tok_existsb. Qed.

Lemma restart_read_rule_holds m b j g c s (e : list string) :
  restart_read_rule
    (_make_bang_line m b j g c s
       (if negb (existsb is_moread e) then e ++ ["moread"] else e) None)
    m b j g c s e.
Proof.
  unfold restart_read_rule. cbv zeta. split; intros He; rewrite He; simpl negb.
  - assert (_make_bang_line m b j g c s (e ++ ["moread"]) None
            = _join_bang_tokens
                ((Spec.head_tokens m b g ++ Spec.convergence_token e
                  ++ Spec.job_keywords j ++ Spec.solvent_tokens c s)
                 ++ e ++ ["moread"])) as Hline.
    { rewrite bang_line_pre, convergence_token_moread.
      now rewrite <- !app_assoc. }
    assert (split (_make_bang_line m b j g c s (e ++ ["moread"]) None)
            = "!" :: flat_map split
                       ((Spec.head_tokens m b g ++ Spec.convergence_token e
                         ++ Spec.job_keywords j ++ Spec.solvent_tokens c s)
                        ++ e) ++ ["moread"]) as Hsplit.
    { rewrite Hline, split_bang_line, app_assoc, flat_map_app. reflexivity. }
    split; [exact Hline|]. split; [|split; [exact Hsplit|]].
    + rewrite count_tok_app, (count_moread_existsb e He). reflexivity.
    + intros Hword. rewrite Hsplit, count_tok_cons, count_tok_app.
      rewrite count_tok_words_none; [reflexivity|].
      apply no_word_app in Hword as [Hhead Hrest].
      apply no_word_app in Hrest as [Hsolv He'].
      apply no_word_app. split; [|exact He'].
      apply no_word_app. split; [exact Hhead|].
      rewrite app_assoc. apply no_word_app. split; [|exact Hsolv].
      apply no_word_builtin. intros t Ht.
      each_elem Ht ltac:(vm_compute; reflexivity).
  - rewrite bang_line_pre. split; [reflexivity|apply split_bang_line].
Qed.

(** C4, counterexample.  A single-stage input with a restart file and no
    extra token, whose method is itself the restart-read token: the line
    holds it twice, among its tokens and among its words. *)
Lemma C4_counterexample :
  truthy (Some "guess.gbw") = true
  ∧ existsb is_moread (_parse_extras None) = false
  ∧ single_step_header (Some "moread") (Some "def2-TZVPPD") "sp"
      (Some "DEFGRID3") None None None (Some "guess.gbw")
    = "! moread def2-TZVPPD DEFGRID3 TightSCF moread"
  ∧ count_tok is_moread
      (line_tokens
         (_make_bang_toks (Some "moread") (Some "def2-TZVPPD") "sp"
            (Some "DEFGRID3") None None
            (single_step_tokens None (Some "guess.gbw")) None)) = 2
  ∧ count_tok is_moread
      (split (single_step_header (Some "moread") (Some "def2-TZVPPD") "sp"
                (Some "DEFGRID3") None None None (Some "guess.gbw"))) = 2.
Proof. repeat split; vm_compute; reflexivity. Qed.

(** C4, amended.  With a restart file given, in a single-stage document and
    in every stage of a compound document: when no extra token equals
    [moread], letter case apart, the directive line is built from the extra
    tokens followed by one appended [moread], which is the only restart-read
    token among them and the last word of the line, and the only restart-read
    word of the whole line whenever no word of the method, basis, grid,
    solvent and extra tokens is one; when an extra token already is one, the
    line is built from the extra tokens as they are. *)
Theorem C4_restart_read_token (moinp : option string) :
  truthy moinp = true →
  (∀ m b j g c s extra,
      restart_read_rule (single_step_header m b j g c s extra moinp)
        m b j g c s (_parse_extras extra))
  ∧ (∀ st, st_moinp st = moinp →
      restart_read_rule (step_bang st)
        (st_method st) (st_basis st) (st_job st) (st_grid st) (st_cpcm st)
        (st_smd st) (st_extra_tokens st)).
Proof.
  intros Hmo. split.
  - intros. unfold single_step_header, single_step_tokens. cbv zeta.
    rewrite Hmo. simpl andb. apply restart_read_rule_holds.
  - intros st <-. unfold step_bang. cbv zeta. rewrite Hmo. simpl andb.
    pose proof (restart_read_rule_holds (st_method st) (st_basis st)
                  (st_job st) (st_grid st) (st_cpcm st) (st_smd st)
                  (st_extra_tokens st)) as H.
    destruct (existsb is_moread (st_extra_tokens st)); exact H.
Qed.

(** C4 at a single-stage input without the token and at a step that has it. *)
Lemma C4_restart_read_token_witness :
  single_step_header (Some "wB97X-D4") (Some "def2-SVPD") "optfreq"
    (Some "DEFGRID3") None (Some "water") (Some ["SlowConv"]) (Some "guess.gbw")
  = "! wB97X-D4 def2-SVPD DEFGRID3 TightSCF Opt Freq SMD(water) SlowConv moread"
  ∧ count_tok is_moread
      (split (single_step_header (Some "wB97X-D4") (Some "def2-SVPD") "optfreq"
                (Some "DEFGRID3") None (Some "water") (Some ["SlowConv"])
                (Some "guess.gbw"))) = 1
  ∧ step_bang (Step "sp" (Some "wB97M-V") (Some "def2-TZVPPD") (Some "DEFGRID3")
                 None None ["MORead"] (Some "guess.gbw") 10)
    = "! wB97M-V def2-TZVPPD DEFGRID3 TightSCF MORead".
Proof.
  destruct (C4_restart_read_token (Some "guess.gbw") eq_refl) as [H1 H2].
  destruct (H1 (Some "wB97X-D4") (Some "def2-SVPD") "optfreq"
              (Some "DEFGRID3") None (Some "water") (Some ["SlowConv"]))
    as [H _].
  destruct (H eq_refl) as (Hline & _ & _ & Hcount).
  split; [|split].
  - rewrite Hline. vm_compute. reflexivity.
  - apply Hcount. intros t Ht.
    each_elem Ht ltac:(vm_compute; reflexivity).
  - destruct (H2 (Step "sp" (Some "wB97M-V") (Some "def2-TZVPPD")
                    (Some "DEFGRID3") None None ["MORead"] (Some "guess.gbw") 10)
                eq_refl) as [_ H'].
    destruct (H' eq_refl) as [-> _]. vm_compute. reflexivity.
Defined.

(** ** Literal blocks *)

(** C7.  At a literal block whose last line ends in two blanks,
    [_read_text_file] hands over the text without these blanks, whereas the
    text with only its trailing newlines trimmed and one newline appended
    keeps them: [rstrip] removes all trailing white space, not the newlines
    alone as the comment of line 108 says. *)
Theorem C7_read_text_file_strips_blanks :
  let text := "%geom" +:+ nl +:+ "  MaxIter 200" +:+ nl +:+ "end  " +:+ nl in
  let w := World {[ "geom.txt" := text ]} [] in
  _read_text_file "geom.txt" w
  = (inr ("%geom" +:+ nl +:+ "  MaxIter 200" +:+ nl +:+ "end" +:+ nl), w)
  ∧ Spec.literal_block text
    = "%geom" +:+ nl +:+ "  MaxIter 200" +:+ nl +:+ "end  " +:+ nl.
Proof. split; vm_compute; reflexivity. Qed.

Lemma bind_raise {A B} (m : Py A) (k : A → Py B) w e w' :
  m w = (inl e, w') → (m ≫= k) w = (inl e, w').
Proof. intros H. unfold mbind, Py_bind. now rewrite H. Qed.

Lemma bind_value {A B} (m : Py A) (k : A → Py B) w a w' :
  m w = (inr a, w') → (m ≫= k) w = k a w'.
Proof. intros H. unfold mbind, Py_bind. now rewrite H. Qed.

Lemma read_text_file_missing w p :
  files w !! p = None → _read_text_file p w = (inl (not_found p), w).
Proof.
  intros H. unfold _read_text_file.
  rewrite (bind_value _ _ w false w); [reflexivity|].
  unfold path_exists. rewrite H. reflexivity.
Qed.

Lemma read_text_file_found w p text :
  files w !! p = Some text →
  _read_text_file p w = (inr (rstrip (universal_newlines text) +:+ nl), w).
Proof.
  intros H. unfold _read_text_file.
  rewrite (bind_value _ _ w true w).
  - cbv beta iota delta [negb].
    rewrite (bind_value _ _ w (universal_newlines text) w); [reflexivity|].
    unfold read_text. now rewrite H.
  - unfold path_exists. rewrite H. reflexivity.
Qed.

Lemma first_missing_cons w f fs :
  first_missing w (f :: fs)
  = if bool_decide (files w !! f = None) then Some f else first_missing w fs.
Proof. reflexivity. Qed.

Lemma first_missing_app w l1 l2 :
  first_missing w (l1 ++ l2)
  = match first_missing w l1 with
    | Some p => Some p
    | None => first_missing w l2
    end.
Proof.
  induction l1 as [|f l1 IH]; [reflexivity|].
  simpl app. rewrite !first_missing_cons. now case_bool_decide.
Qed.

Lemma first_missing_Some w fs p :
  first_missing w fs = Some p → p ∈ fs ∧ files w !! p = None.
Proof.
  intros [Hin Hp]%find_some. split; [now apply list_elem_of_In|].
  now apply bool_decide_eq_true in Hp.
Qed.

Lemma first_missing_exists w fs p :
  p ∈ fs → files w !! p = None → ∃ q, first_missing w fs = Some q.
Proof.
  intros Hin Hp. destruct (first_missing w fs) as [q|] eqn:E; [eauto|].
  exfalso. apply list_elem_of_In in Hin.
  pose proof (find_none _ _ E p Hin) as H. simpl in H.
  apply bool_decide_eq_false in H. contradiction.
Qed.

(** Reading a list of blocks stops at the first missing file and changes
    nothing. *)
Lemma read_blocks_result w fs acc :
  match first_missing w fs with
  | Some p => read_blocks acc fs w = (inl (not_found p), w)
  | None => ∃ blocks, read_blocks acc fs w = (inr blocks, w)
  end.
Proof.
  revert acc. induction fs as [|f fs IH]; intros acc.
  - simpl. eauto.
  - rewrite first_missing_cons. simpl read_blocks. case_bool_decide as Hf.
    + apply bind_raise, read_text_file_missing, Hf.
    + destruct (files w !! f) as [text|] eqn:E; [|contradiction].
      rewrite (bind_value _ _ w _ w (read_text_file_found w f text E)).
      apply IH.
Qed.

Lemma collect_global_result a w :
  match first_missing w (block_paths (a_extra_block a)) with
  | Some p => _collect_global_extra_blocks a w = (inl (not_found p), w)
  | None => ∃ blocks, _collect_global_extra_blocks a w = (inr blocks, w)
  end.
Proof.
  unfold _collect_global_extra_blocks, block_paths. cbv zeta.
  destruct (truthy_list (a_extra_block a)).
  - apply read_blocks_result.
  - simpl. eauto.
Qed.

Lemma collect_step_loop_result a w ks by_step :
  match first_missing w (step_block_paths a ks) with
  | Some p => collect_step_loop a by_step ks w = (inl (not_found p), w)
  | None => ∃ m, collect_step_loop a by_step ks w = (inr m, w)
  end.
Proof.
  revert by_step. induction ks as [|k ks IH]; intros by_step.
  - simpl. eauto.
  - unfold step_block_paths. simpl flat_map. fold (step_block_paths a ks).
    rewrite first_missing_app. simpl collect_step_loop.
    unfold block_paths at 1.
    destruct (truthy_list (extra_block_k (a_step a k))); [|apply IH].
    pose proof (read_blocks_result w
                  (default [] (extra_block_k (a_step a k))) []) as Hr.
    destruct (first_missing w (default [] (extra_block_k (a_step a k)))).
    + now apply bind_raise.
    + destruct Hr as [blocks Hr]. rewrite (bind_value _ _ _ _ _ Hr). apply IH.
Qed.

Lemma numbered_options_steps a :
  _any_numbered_options_present a = true → _collect_compound_steps a ≠ [].
Proof.
  unfold _any_numbered_options_present, _collect_compound_steps.
  simpl seq. simpl existsb. simpl foldl.
  destruct (numbered_option_present (a_step a 1)),
    (numbered_option_present (a_step a 2)),
    (numbered_option_present (a_step a 3)),
    (numbered_option_present (a_step a 4)); simpl; intros H; discriminate.
Qed.

(** C8.  When [main] sets out to assemble a document and one of the
    literal-block files it refers to does not exist, the run ends with the
    exception [FileNotFoundError] whose message names a missing file (the
    first one in reading order), and the world is as before: no output file
    was opened or written. *)
Theorem C8_missing_literal_block (a : args) (outpath xyz_name : string)
    (w : world) :
  assembles a = true →
  (∃ p, p ∈ referenced_blocks a ∧ files w !! p = None) →
  ∃ p, p ∈ referenced_blocks a ∧ files w !! p = None
       ∧ first_missing w (referenced_blocks a) = Some p
       ∧ _read_text_file p w
         = (inl (FileNotFoundError ("extra block file not found: " +:+ p)), w)
       ∧ main_assemble a outpath xyz_name w
         = (inl (FileNotFoundError ("extra block file not found: " +:+ p)), w).
Proof.
  intros Hasm (p0 & Hin0 & Hp0).
  destruct (first_missing_exists w _ p0 Hin0 Hp0) as [p Hp].
  destruct (first_missing_Some w _ p Hp) as [Hin Hnone].
  exists p. split; [exact Hin|]. split; [exact Hnone|]. split; [exact Hp|].
  split; [now apply read_text_file_missing|].
  unfold main_assemble, referenced_blocks, assembles in *.
  pose proof (collect_global_result a w) as Hg.
  destruct (_any_numbered_options_present a) eqn:Hnum.
  - pose proof (numbered_options_steps a Hnum) as Hsteps.
    destruct (_collect_compound_steps a) as [|st steps]; [contradiction|].
    rewrite first_missing_app in Hp.
    destruct (first_missing w (block_paths (a_extra_block a))) as [q|].
    + injection Hp as ->. now apply bind_raise.
    + destruct Hg as [blocks Hg]. rewrite (bind_value _ _ _ _ _ Hg).
      apply bind_raise.
      pose proof (collect_step_loop_result a w (seq 1 4) ∅) as Hs.
      rewrite Hp in Hs. exact Hs.
  - simpl in Hasm. rewrite Hasm. simpl negb. cbv iota.
    rewrite Hp in Hg. now apply bind_raise.
Qed.

(** ** The single-step writer *)

(** The writer ends in what [mkdir] or [open] raises, with the world as it
    was, or it returns with the text under the output path and one line
    printed. *)
Lemma write_single_step_run outpath xyzfile charge mult m b j g c s extra pal
    maxcore_mb nstates moinp pal_style extra_blocks w :
  write_single_step outpath xyzfile charge mult m b j g c s extra pal
    maxcore_mb nstates moinp pal_style extra_blocks w
  = match write_refused w outpath with
    | Some e => (inl e, w)
    | None =>
        (inr tt,
         World (<[outpath :=
                   join (nl +:+ nl)
                     (single_step_content xyzfile charge mult m b j g c s extra
                        pal maxcore_mb nstates moinp pal_style extra_blocks)]>
                  (files w))
               (printed w ++ ["[OK] Wrote " +:+ outpath]))
    end.
Proof.
  unfold write_single_step, write_refused, mbind, Py_bind, mkdir_parents,
    open_w, f_write, print. cbv zeta.
  destruct (mkdir_refused w outpath); [reflexivity|].
  destruct (open_refused w outpath); [reflexivity|].
  cbn [files printed]. rewrite lookup_insert_eq, insert_insert_eq. reflexivity.
Qed.

Lemma write_single_step_returns outpath xyzfile charge mult m b j g c s extra
    pal maxcore_mb nstates moinp pal_style extra_blocks w u w' :
  write_single_step outpath xyzfile charge mult m b j g c s extra pal
    maxcore_mb nstates moinp pal_style extra_blocks w = (inr u, w') →
  w' = World (<[outpath :=
                 join (nl +:+ nl)
                   (single_step_content xyzfile charge mult m b j g c s extra
                      pal maxcore_mb nstates moinp pal_style extra_blocks)]>
                (files w))
             (printed w ++ ["[OK] Wrote " +:+ outpath]).
Proof.
  rewrite write_single_step_run.
  destruct (write_refused w outpath); [discriminate|]. now intros [= _ <-].
Qed.

(** C6.  Two runs of the single-step writer on the same inputs that both
    return leave the same text under their output paths, whatever the paths
    and the worlds they start in: the text composed from the inputs alone.
    When the second run follows the first and writes to another path, both
    files hold that text afterwards. *)
Theorem C6_single_step_deterministic (p1 p2 xyzfile : string) (charge mult : Z)
    (m b : option string) (j : string) (g c s : option string)
    (extra : option (list string)) (pal maxcore_mb nstates : Z)
    (moinp : option string) (pal_style : string)
    (extra_blocks : option (list string)) (w w1 w2 : world) :
  let run p :=
    write_single_step p xyzfile charge mult m b j g c s extra pal maxcore_mb
      nstates moinp pal_style extra_blocks in
  let text :=
    join (nl +:+ nl)
      (single_step_content xyzfile charge mult m b j g c s extra pal
         maxcore_mb nstates moinp pal_style extra_blocks) in
  p1 ≠ p2 →
  run p1 w = (inr tt, w1) → run p2 w1 = (inr tt, w2) →
  files w1 !! p1 = Some text
  ∧ files w2 !! p1 = Some text ∧ files w2 !! p2 = Some text
  ∧ ∀ p p' v v' v1 v1',
      run p v = (inr tt, v1) → run p' v' = (inr tt, v1') →
      files v1 !! p = Some text ∧ files v1' !! p' = Some text.
Proof.
  intros run text Hne H1 H2.
  apply write_single_step_returns in H1, H2. subst w1 w2. cbn [files].
  split; [apply lookup_insert_eq|]. split; [|split].
  - rewrite lookup_insert_ne by congruence. apply lookup_insert_eq.
  - apply lookup_insert_eq.
  - intros p p' v v' v1 v1' Hv Hv'.
    apply write_single_step_returns in Hv, Hv'. subst v1 v1'. cbn [files].
    split; apply lookup_insert_eq.
Qed.

(** ** The compound writer *)

Lemma last_char_None s : last_char s = None → s = EmptyString.
Proof.
  destruct s as [|x r]; [reflexivity|]. simpl.
  destruct (last_char r); discriminate.
Qed.

(** [rstrip] leaves no white space at the end. *)
Lemma rstrip_last_char s c : last_char (rstrip s) = Some c → is_space c = false.
Proof.
  induction s as [|x r IH]; simpl; [discriminate|].
  destruct (is_space x && negb (nonempty (rstrip r))) eqn:E; simpl;
    [discriminate|].
  destruct (last_char (rstrip r)) as [d|] eqn:El.
  - intros [= <-]. now apply IH.
  - intros [= <-]. apply last_char_None in El. rewrite El in E.
    simpl in E. now rewrite andb_true_r in E.
Qed.

Lemma rstrip_not_line x t : rstrip x ≠ t +:+ nl.
Proof.
  intros H. assert (last_char (rstrip x) = Some LF) as Hl.
  { rewrite H. unfold nl. now rewrite last_char_append_nonempty. }
  apply rstrip_last_char in Hl. vm_compute in Hl. discriminate Hl.
Qed.

Lemma step_bang_first_char st : first_char (step_bang st) = Some "!"%char.
Proof.
  unfold step_bang. cbv zeta.
  destruct (truthy (st_moinp st) && negb (existsb is_moread (st_extra_tokens st)));
    reflexivity.
Qed.

Lemma section_chunk_not_end t : section_chunk t → t ≠ "Step_end" +:+ nl.
Proof.
  intros [H|[H|[x ->]]]; [| |apply rstrip_not_line];
    intros ->; discriminate H.
Qed.

Lemma compound_step_app xyzfile charge mult seb comp i st :
  compound_step xyzfile charge mult seb comp i st
  = comp ++ compound_step xyzfile charge mult seb [] i st.
Proof.
  unfold compound_step. cbv zeta.
  destruct (truthy (st_moinp st)), (String.eqb (st_job st) "tddft"),
    (seb ≫= (λ d, d !! i)), (i =? 1)%nat; simpl;
    now rewrite <- ?app_assoc.
Qed.

Lemma compound_loop_app xyzfile charge mult seb comp i steps :
  compound_loop xyzfile charge mult seb comp i steps
  = comp ++ compound_loop xyzfile charge mult seb [] i steps.
Proof.
  revert comp i. induction steps as [|st steps IH]; intros comp i; simpl.
  - now rewrite app_nil_r.
  - rewrite IH, compound_step_app.
    rewrite (IH (compound_step xyzfile charge mult seb [] i st)).
    now rewrite app_assoc.
Qed.

(** The chunks of one step: the start marker, the sections (which end with
    the SCF block and the literal text of the step, if any), the geometry
    line in step 1 only, the end marker. *)
Lemma compound_step_chunks xyzfile charge mult seb i st :
  ∃ pre lit,
    compound_step xyzfile charge mult seb [] i st
    = ["New_step"] ++ (step_bang st :: pre ++ [_scf_block 300] ++ lit)
      ++ (if (i =? 1)%nat then [xyz_line charge mult xyzfile +:+ nl] else [])
      ++ ["Step_end" +:+ nl]
    ∧ (∀ t, t ∈ step_bang st :: pre ++ [_scf_block 300] ++ lit → section_chunk t)
    ∧ lit = match seb ≫= (λ d, d !! i) with
            | Some blocks => [rstrip (join nl blocks)]
            | None => []
            end.
Proof.
  exists ((if truthy (st_moinp st)
           then ["%moinp " +:+ dq +:+ the (st_moinp st) +:+ dq] else [])
          ++ (if String.eqb (st_job st) "tddft"
              then [_tddft_block (st_nstates st)] else [])).
  eexists. split; [|split; [|reflexivity]].
  - unfold compound_step. cbv zeta.
    destruct (truthy (st_moinp st)), (String.eqb (st_job st) "tddft"),
      (seb ≫= (λ d, d !! i)), (i =? 1)%nat; reflexivity.
  - intros t Ht. unfold section_chunk.
    apply elem_of_cons in Ht as [->|Ht]; [left; apply step_bang_first_char|].
    rewrite !elem_of_app in Ht. destruct Ht as [[Ht|Ht]|[Ht|Ht]].
    + destruct (truthy (st_moinp st)); [|now apply elem_of_nil in Ht].
      apply elem_of_cons in Ht as [->|Ht]; [right; left; reflexivity|].
      now apply elem_of_nil in Ht.
    + destruct (String.eqb (st_job st) "tddft"); [|now apply elem_of_nil in Ht].
      apply elem_of_cons in Ht as [->|Ht]; [right; left; reflexivity|].
      now apply elem_of_nil in Ht.
    + apply elem_of_cons in Ht as [->|Ht]; [right; left; reflexivity|].
      now apply elem_of_nil in Ht.
    + destruct (seb ≫= (λ d, d !! i)); [|now apply elem_of_nil in Ht].
      apply elem_of_cons in Ht as [->|Ht]; [right; right; eauto|].
      now apply elem_of_nil in Ht.
Qed.

(** The compound writer ends in what [mkdir] or [open] raises, with the
    world as it was, or it returns with the text under the output path and
    one line printed. *)
Lemma write_compound_run outpath xyzfile charge mult steps pal maxcore_mb
    pal_style global seb w :
  write_compound outpath xyzfile charge mult steps pal maxcore_mb pal_style
    global seb w
  = match write_refused w outpath with
    | Some e => (inl e, w)
    | None =>
        (inr tt,
         World (<[outpath :=
                   compound_text xyzfile charge mult steps pal maxcore_mb
                     pal_style global seb]> (files w))
               (printed w ++ ["[OK] Wrote %compound input: " +:+ outpath]))
    end.
Proof.
  unfold write_compound, compound_text, write_refused, mkdir_parents, open_w.
  cbv zeta. unfold mbind at 1, Py_bind at 1.
  destruct (mkdir_refused w outpath); [reflexivity|].
  unfold mbind at 1, Py_bind at 1.
  destruct (open_refused w outpath); [reflexivity|].
  unfold mbind, Py_bind, f_write, print, mret, Py_ret.
  assert (∀ x : string, EmptyString +:+ x = x) as Hnil by reflexivity.
  destruct (nonempty (compound_header pal maxcore_mb pal_style)),
    (truthy_list global); cbn [files printed];
    rewrite ?lookup_insert_eq, ?insert_insert_eq; cbn [default];
    rewrite ?lookup_insert_eq, ?insert_insert_eq; cbn [default];
    rewrite ?lookup_insert_eq, ?insert_insert_eq; cbn [default];
    unfold id; rewrite ?Hnil, ?str_append_assoc, ?Hnil; reflexivity.
Qed.

Lemma write_compound_returns outpath xyzfile charge mult steps pal maxcore_mb
    pal_style global seb w u w' :
  write_compound outpath xyzfile charge mult steps pal maxcore_mb pal_style
    global seb w = (inr u, w') →
  w' = World (<[outpath :=
                 compound_text xyzfile charge mult steps pal maxcore_mb
                   pal_style global seb]> (files w))
             (printed w ++ ["[OK] Wrote %compound input: " +:+ outpath]).
Proof.
  rewrite write_compound_run.
  destruct (write_refused w outpath); [discriminate|]. now intros [= _ <-].
Qed.

(** The compound example of the specification, an [optfreq] step followed by
    an [sp] step: the chunks of the body. *)
Example compound_two_steps :
  compound_comp "mol.xyz" 0 1 [step_optfreq; step_sp] None
  = [ "%compound";
      "New_step";
      "! wB97X-D4 def2-SVPD DEFGRID3 TightSCF Opt Freq";
      "%scf" +:+ nl +:+ "  MaxIter 300" +:+ nl +:+ "end";
      "* xyzfile 0 1 mol.xyz" +:+ nl;
      "Step_end" +:+ nl;
      "New_step";
      "! wB97M-V def2-TZVPPD DEFGRID3 TightSCF";
      "%scf" +:+ nl +:+ "  MaxIter 300" +:+ nl +:+ "end";
      "Step_end" +:+ nl;
      "EndRun" ].
Proof. vm_compute. reflexivity. Qed.

(** * Further properties of the code *)

(** Runs the first computation of a chain of binds, whose outcome is the
    value stated by [H]. *)
Ltac then_value H :=
  etransitivity; [exact (bind_value _ _ _ _ _ H)|]; cbv beta.

(** ** [_parse_extras] *)

Lemma all_chars_app p a b :
  all_chars p (a +:+ b) = all_chars p a && all_chars p b.
Proof.
  induction a as [|c a IH]; [reflexivity|].
  simpl. rewrite IH. now rewrite andb_assoc.
Qed.

Lemma token_char_not_space c : token_char c = true → is_space c = false.
Proof.
  unfold token_char. intros [H _]%andb_true_iff. now apply negb_true_iff in H.
Qed.

Lemma rstrip_no_space t :
  all_chars (λ c, negb (is_space c)) t = true → rstrip t = t.
Proof.
  induction t as [|c r IH]; [reflexivity|]. simpl.
  intros [Hc Hr]%andb_true_iff. apply negb_true_iff in Hc.
  rewrite Hc. simpl. now rewrite IH.
Qed.

Lemma all_chars_impl (p q : ascii → bool) t :
  (∀ c, p c = true → q c = true) →
  all_chars p t = true → all_chars q t = true.
Proof.
  intros Hpq. induction t as [|c r IH]; [reflexivity|]. simpl.
  intros [Hc Hr]%andb_true_iff. rewrite (Hpq c Hc). now apply IH.
Qed.

Lemma clean_no_space t :
  all_chars token_char t = true →
  all_chars (λ c, negb (is_space c)) t = true.
Proof.
  apply all_chars_impl. intros c Hc. apply token_char_not_space in Hc.
  now rewrite Hc.
Qed.

Lemma strip_clean t : all_chars token_char t = true → strip t = t.
Proof.
  intros H. unfold strip. rewrite rstrip_no_space by now apply clean_no_space.
  destruct t as [|c r]; [reflexivity|]. simpl in *.
  apply andb_true_iff in H as [Hc _]. apply token_char_not_space in Hc.
  now rewrite Hc.
Qed.

Lemma split_from_tokens cur s t :
  all_chars token_char cur = true →
  all_chars (λ c, is_space c || token_char c) s = true →
  t ∈ split_from cur s → clean_token t.
Proof.
  revert cur. induction s as [|c r IH]; intros cur Hcur Hs Ht; simpl in *.
  - destruct (nonempty cur) eqn:E; [|now apply elem_of_nil in Ht].
    apply elem_of_cons in Ht as [->|Ht]; [now split|].
    now apply elem_of_nil in Ht.
  - apply andb_true_iff in Hs as [Hc Hr].
    destruct (is_space c) eqn:Ec.
    + destruct (nonempty cur) eqn:E.
      * apply elem_of_cons in Ht as [->|Ht]; [now split|].
        now apply (IH EmptyString).
      * now apply (IH EmptyString).
    + apply (IH (cur +:+ String c EmptyString)); [|exact Hr|exact Ht].
      rewrite all_chars_app, Hcur. simpl in *. now rewrite Hc.
Qed.

Lemma replace_comma_chars item :
  all_chars (λ c, is_space c || token_char c) (replace_comma item) = true.
Proof.
  induction item as [|c r IH]; [reflexivity|]. simpl. rewrite IH, andb_true_r.
  unfold token_char. destruct (Ascii.eqb c ",") eqn:E; [reflexivity|].
  rewrite E. now destruct (is_space c).
Qed.

Lemma split_replace_clean item t :
  t ∈ split (replace_comma item) → clean_token t.
Proof.
  apply (split_from_tokens EmptyString); [reflexivity|apply replace_comma_chars].
Qed.

Lemma filter_strip_clean l :
  (∀ t, t ∈ l → clean_token t) → List.filter nonempty (map strip l) = l.
Proof.
  induction l as [|x l IH]; intros H; [reflexivity|]. simpl.
  destruct (H x) as [Hne Hcl]; [apply list_elem_of_here|].
  rewrite (strip_clean x Hcl), Hne. f_equal. apply IH.
  intros t Ht. apply H. now apply list_elem_of_further.
Qed.

Lemma item_tokens_split item : item_tokens item = split (replace_comma item).
Proof. apply filter_strip_clean, split_replace_clean. Qed.

Lemma foldl_item_tokens acc ts :
  foldl (λ toks t, let t := strip t in
                   if nonempty t then toks ++ [t] else toks) acc ts
  = acc ++ List.filter nonempty (map strip ts).
Proof.
  revert acc. induction ts as [|t ts IH]; intros acc; simpl.
  - now rewrite app_nil_r.
  - rewrite IH. destruct (nonempty (strip t)); [|reflexivity].
    now rewrite <- app_assoc.
Qed.

Lemma parse_extras_items l : _parse_extras (Some l) = flat_map item_tokens l.
Proof.
  destruct l as [|x l]; [reflexivity|].
  unfold _parse_extras. simpl truthy_list. simpl negb. cbv iota.
  simpl default. generalize (x :: l). clear x l. intros l.
  assert (∀ acc,
    foldl (λ toks item,
             foldl (λ toks t, let t := strip t in
                              if nonempty t then toks ++ [t] else toks)
                   toks (split (replace_comma item))) acc l
    = acc ++ flat_map item_tokens l) as H.
  { induction l as [|x l IH]; intros acc; simpl.
    - now rewrite app_nil_r.
    - rewrite IH, foldl_item_tokens. unfold item_tokens.
      now rewrite <- app_assoc. }
  apply (H []).
Qed.

(** X1.  Every token that [_parse_extras] yields is non-empty and holds
    neither white space nor a comma. *)
Theorem parse_extras_clean (extra : option (list string)) (t : string) :
  t ∈ _parse_extras extra →
  t ≠ EmptyString
  ∧ all_chars (λ c, negb (is_space c) && negb (Ascii.eqb c ","%char)) t = true.
Proof.
  destruct extra as [l|]; [|intros H; now apply elem_of_nil in H].
  rewrite parse_extras_items. intros H. apply list_elem_of_In in H.
  apply in_flat_map in H as (item & _ & Hin). apply list_elem_of_In in Hin.
  rewrite item_tokens_split in Hin.
  apply split_replace_clean in Hin as [Hne Hcl].
  split; [now apply nonempty_true|exact Hcl].
Qed.

(** X1 at the extras of the two-step example of the source. *)
Lemma parse_extras_clean_witness :
  _parse_extras (Some ["SlowConv defgrid3, tightSCF"])
  = ["SlowConv"; "defgrid3"; "tightSCF"]
  ∧ "defgrid3" ≠ EmptyString
  ∧ all_chars (λ c, negb (is_space c) && negb (Ascii.eqb c ","%char))
      "defgrid3" = true.
Proof.
  split; [vm_compute; reflexivity|].
  apply (parse_extras_clean (Some ["SlowConv defgrid3, tightSCF"])).
  apply list_elem_of_further, list_elem_of_here.
Defined.

(** X2.  The tokens come item by item, in the order of the items: parsing a
    concatenation of two lists of items gives the tokens of the first
    followed by those of the second; no item, or no list at all, gives no
    token. *)
Theorem parse_extras_app (l1 l2 : list string) :
  _parse_extras (Some (l1 ++ l2))
  = _parse_extras (Some l1) ++ _parse_extras (Some l2)
  ∧ _parse_extras (Some []) = [] ∧ _parse_extras None = [].
Proof.
  split; [|split; reflexivity].
  rewrite !parse_extras_items. apply flat_map_app.
Qed.

Lemma replace_comma_app a b :
  replace_comma (a +:+ b) = replace_comma a +:+ replace_comma b.
Proof. induction a as [|c a IH]; [reflexivity|]. simpl. now rewrite IH. Qed.

Lemma replace_comma_clean t :
  all_chars token_char t = true → replace_comma t = t.
Proof.
  induction t as [|c r IH]; [reflexivity|]. simpl.
  intros [Hc Hr]%andb_true_iff. rewrite (IH Hr).
  unfold token_char in Hc. apply andb_true_iff in Hc as [_ Hc].
  apply negb_true_iff in Hc. now rewrite Hc.
Qed.

Lemma split_from_token cur t rest :
  all_chars token_char t = true →
  split_from cur (t +:+ rest) = split_from (cur +:+ t) rest.
Proof.
  revert cur. induction t as [|c r IH]; intros cur H.
  - now rewrite str_append_nil_r.
  - simpl in H. apply andb_true_iff in H as [Hc Hr].
    apply token_char_not_space in Hc. simpl. rewrite Hc, (IH _ Hr).
    now rewrite str_append_assoc.
Qed.

(** Joined by a separator that [replace] turns into one blank, clean tokens
    split into themselves. *)
Lemma split_join_clean sep toks :
  replace_comma sep = " " →
  (∀ t, t ∈ toks → clean_token t) →
  split (replace_comma (String.concat sep toks)) = toks.
Proof.
  intros Hsep. unfold split. induction toks as [|t toks IH]; intros H.
  - reflexivity.
  - destruct (H t) as [Hne Hcl]; [apply list_elem_of_here|].
    assert (∀ x, x ∈ toks → clean_token x) as H'
      by (intros x Hx; apply H; now apply list_elem_of_further).
    destruct toks as [|t' toks].
    + simpl. rewrite (replace_comma_clean t Hcl).
      rewrite <- (str_append_nil_r t) at 1.
      rewrite (split_from_token _ _ _ Hcl). simpl.
      change (EmptyString +:+ t) with t. now rewrite Hne.
    + rewrite concat_cons_cons, !replace_comma_app, Hsep.
      rewrite (replace_comma_clean t Hcl), (split_from_token _ _ _ Hcl).
      change (EmptyString +:+ t) with t.
      change (split_from t (" " +:+ replace_comma (String.concat sep (t' :: toks))))
        with (if is_space " "
              then (if nonempty t
                    then t :: split_from EmptyString
                                (replace_comma (String.concat sep (t' :: toks)))
                    else split_from EmptyString
                           (replace_comma (String.concat sep (t' :: toks))))
              else split_from (t +:+ " ")
                     (replace_comma (String.concat sep (t' :: toks)))).
      change (is_space " ") with true. cbv iota. rewrite Hne.
      f_equal. now apply IH.
Qed.

Lemma item_tokens_clean t : clean_token t → item_tokens t = [t].
Proof.
  intros H. rewrite item_tokens_split.
  apply (split_join_clean " " [t]); [reflexivity|].
  intros x Hx. apply elem_of_cons in Hx as [->|Hx]; [exact H|].
  now apply elem_of_nil in Hx.
Qed.

Lemma flat_map_item_tokens_clean toks :
  (∀ t, t ∈ toks → clean_token t) → flat_map item_tokens toks = toks.
Proof.
  induction toks as [|t toks IH]; intros H; [reflexivity|]. simpl.
  rewrite item_tokens_clean by (apply H, list_elem_of_here). simpl. f_equal.
  apply IH. intros x Hx. apply H. now apply list_elem_of_further.
Qed.

Lemma parse_extras_tokens_clean extra t :
  t ∈ _parse_extras extra → clean_token t.
Proof.
  destruct extra as [l|]; [|intros H; now apply elem_of_nil in H].
  rewrite parse_extras_items. intros H. apply list_elem_of_In in H.
  apply in_flat_map in H as (item & _ & Hin). apply list_elem_of_In in Hin.
  rewrite item_tokens_split in Hin. now apply split_replace_clean in Hin.
Qed.

(** X3.  Parsing is a round trip on its own output: the tokens it yields,
    given back as items one by one, or joined into one item by commas or by
    blanks, parse to the same tokens. *)
Theorem parse_extras_round_trip (extra : option (list string)) :
  let toks := _parse_extras extra in
  _parse_extras (Some toks) = toks
  ∧ _parse_extras (Some [join "," toks]) = toks
  ∧ _parse_extras (Some [join " " toks]) = toks.
Proof.
  intros toks.
  assert (∀ t, t ∈ toks → clean_token t) as Hclean
    by (intros t; apply parse_extras_tokens_clean).
  rewrite !parse_extras_items. simpl flat_map. rewrite !app_nil_r.
  rewrite !item_tokens_split. unfold join.
  split; [now apply flat_map_item_tokens_clean|].
  split; now apply split_join_clean.
Qed.

(** ** Reading literal blocks *)

Lemma rstrip_all_space w : all_chars is_space w = true → rstrip w = EmptyString.
Proof.
  induction w as [|c r IH]; [reflexivity|]. simpl.
  intros [Hc Hr]%andb_true_iff. now rewrite (IH Hr), Hc.
Qed.

Lemma rstrip_app_space s w :
  all_chars is_space w = true → rstrip (s +:+ w) = rstrip s.
Proof.
  intros Hw. induction s as [|c r IH].
  - simpl. now apply rstrip_all_space.
  - simpl. now rewrite IH.
Qed.

Lemma rstrip_idem s : rstrip (rstrip s) = rstrip s.
Proof.
  induction s as [|c r IH]; [reflexivity|]. simpl.
  destruct (is_space c && negb (nonempty (rstrip r))) eqn:E; [reflexivity|].
  simpl. now rewrite IH, E.
Qed.

Lemma universal_newlines_no_cr s :
  all_chars (λ c, negb (Ascii.eqb c CR)) (universal_newlines s) = true.
Proof.
  induction s as [|c r IH]; [reflexivity|].
  cbn [universal_newlines]. destruct (Ascii.eqb c CR) eqn:Ec.
  - destruct r as [|d r']; [reflexivity|].
    destruct (Ascii.eqb d LF) eqn:Ed.
    + apply Ascii.eqb_eq in Ed. subst d. exact IH.
    + exact IH.
  - cbn [all_chars]. now rewrite Ec, IH.
Qed.

Lemma universal_newlines_id s :
  all_chars (λ c, negb (Ascii.eqb c CR)) s = true → universal_newlines s = s.
Proof.
  induction s as [|c r IH]; [reflexivity|].
  cbn [all_chars]. intros [Hc Hr]%andb_true_iff.
  apply negb_true_iff in Hc. cbn [universal_newlines]. rewrite Hc.
  now rewrite (IH Hr).
Qed.

Lemma all_chars_rstrip p s :
  all_chars p s = true → all_chars p (rstrip s) = true.
Proof.
  induction s as [|c r IH]; [reflexivity|]. cbn [all_chars rstrip].
  intros [Hc Hr]%andb_true_iff.
  destruct (is_space c && negb (nonempty (rstrip r))); [reflexivity|].
  cbn [all_chars]. now rewrite Hc, (IH Hr).
Qed.

(** X4.  A file that exists is read without any change to the world; the
    block is a text free of trailing white space followed by one line feed,
    and it is a fixed point: a file that holds such a block reads as that
    block. *)
Theorem read_text_file_normal_form (w : world) (p text : string) :
  files w !! p = Some text →
  ∃ body,
    _read_text_file p w = (inr (body +:+ nl), w)
    ∧ rstrip body = body
    ∧ ∀ w' q, files w' !! q = Some (body +:+ nl) →
              _read_text_file q w' = (inr (body +:+ nl), w').
Proof.
  intros H. exists (rstrip (universal_newlines text)).
  split; [now apply read_text_file_found|].
  split; [apply rstrip_idem|].
  intros w' q Hq. rewrite (read_text_file_found w' q _ Hq).
  rewrite universal_newlines_id.
  - now rewrite rstrip_app_space, rstrip_idem.
  - rewrite all_chars_app, all_chars_rstrip by apply universal_newlines_no_cr.
    reflexivity.
Qed.

(** X4 at a block that ends in blanks and two line feeds. *)
Lemma read_text_file_normal_form_witness :
  ∃ body,
    _read_text_file "geom.txt"
      (World {[ "geom.txt" := "end  " +:+ nl +:+ nl ]} [])
    = (inr (body +:+ nl), World {[ "geom.txt" := "end  " +:+ nl +:+ nl ]} [])
    ∧ rstrip body = body.
Proof.
  assert (files (World {[ "geom.txt" := "end  " +:+ nl +:+ nl ]} [])
            !! "geom.txt" = Some ("end  " +:+ nl +:+ nl)) as Hfile
    by (vm_compute; reflexivity).
  destruct (read_text_file_normal_form _ _ _ Hfile) as (body & H1 & H2 & _).
  exists body. split; assumption.
Defined.

(** A literal block stored with CR LF line ends: read in text mode, its
    line ends are line feeds. *)
Example read_text_file_crlf :
  _read_text_file "geom.txt"
    (World {[ "geom.txt" := "%geom" +:+ String CR nl +:+ "end" +:+ String CR nl ]}
       [])
  = (inr ("%geom" +:+ nl +:+ "end" +:+ nl),
     World {[ "geom.txt" := "%geom" +:+ String CR nl +:+ "end" +:+ String CR nl ]}
       []).
Proof. vm_compute. reflexivity. Qed.

Lemma first_missing_None w fs p :
  first_missing w fs = None → p ∈ fs → is_Some (files w !! p).
Proof.
  intros H Hin. apply list_elem_of_In in Hin.
  pose proof (find_none _ _ H p Hin) as Hp. simpl in Hp.
  apply bool_decide_eq_false in Hp. destruct (files w !! p); [eauto|done].
Qed.

Lemma read_blocks_ok w fs acc :
  first_missing w fs = None →
  read_blocks acc fs w = (inr (acc ++ map (block_of w) fs), w).
Proof.
  revert acc. induction fs as [|f fs IH]; intros acc H.
  - simpl. now rewrite app_nil_r.
  - rewrite first_missing_cons in H. case_bool_decide as Hf; [discriminate|].
    destruct (files w !! f) as [text|] eqn:E; [|contradiction].
    simpl read_blocks.
    rewrite (bind_value _ _ w _ w (read_text_file_found w f text E)).
    assert (block_of w f = rstrip (universal_newlines text) +:+ nl) as Hb
      by (unfold block_of; now rewrite E).
    rewrite (IH _ H). simpl map. rewrite Hb. now rewrite <- app_assoc.
Qed.

Lemma collect_global_run a w :
  first_missing w (block_paths (a_extra_block a)) = None →
  _collect_global_extra_blocks a w
  = (inr (map (block_of w) (block_paths (a_extra_block a))), w).
Proof.
  intros H. unfold _collect_global_extra_blocks, block_paths in *. cbv zeta.
  destruct (truthy_list (a_extra_block a)); [|reflexivity].
  now rewrite (read_blocks_ok w _ [] H).
Qed.

(** X5.  When every global literal-block file exists, the blocks are
    collected without any change to the world: one block per path, in the
    order of the paths, each the text of its file as text mode reads it (CR
    LF and CR turned into line feeds) with the trailing white space replaced
    by one line feed. *)
Theorem collect_global_blocks_ok (a : args) (w : world) :
  first_missing w (block_paths (a_extra_block a)) = None →
  _collect_global_extra_blocks a w
  = (inr (map (block_of w) (block_paths (a_extra_block a))), w).
Proof. apply collect_global_run. Qed.

(** X5 at a run with one literal block, stored with CR LF line ends. *)
Lemma collect_global_blocks_ok_witness :
  _collect_global_extra_blocks args_block
    (World {[ "geom.txt" := "%geom" +:+ String CR nl +:+ "end" ]} [])
  = (inr ["%geom" +:+ nl +:+ "end" +:+ nl],
     World {[ "geom.txt" := "%geom" +:+ String CR nl +:+ "end" ]} []).
Proof.
  assert (first_missing
            (World {[ "geom.txt" := "%geom" +:+ String CR nl +:+ "end" ]} [])
            (block_paths (a_extra_block args_block)) = None) as Hall
    by (vm_compute; reflexivity).
  rewrite (collect_global_blocks_ok args_block _ Hall).
  vm_compute. reflexivity.
Defined.

Lemma collect_step_loop_ok a w ks by_step :
  first_missing w (step_block_paths a ks) = None →
  ∃ m, collect_step_loop a by_step ks w = (inr m, w)
       ∧ ∀ k, m !! k
              = if bool_decide (k ∈ ks)
                   && truthy_list (extra_block_k (a_step a k))
                then Some (map (block_of w)
                             (default [] (extra_block_k (a_step a k))))
                else by_step !! k.
Proof.
  revert by_step. induction ks as [|k0 ks IH]; intros by_step H.
  - exists by_step. split; [reflexivity|]. intros k.
    rewrite bool_decide_eq_false_2 by apply not_elem_of_nil. reflexivity.
  - unfold step_block_paths in H. simpl flat_map in H.
    fold (step_block_paths a ks) in H. rewrite first_missing_app in H.
    destruct (first_missing w (block_paths (extra_block_k (a_step a k0))))
      eqn:E0; [discriminate|].
    simpl collect_step_loop. unfold block_paths in E0.
    destruct (truthy_list (extra_block_k (a_step a k0))) eqn:Et.
    + rewrite (bind_value _ _ w _ w (read_blocks_ok w _ [] E0)).
      destruct (IH (<[k0 := [] ++ map (block_of w)
                              (default [] (extra_block_k (a_step a k0)))]>
                      by_step) H) as (m & Hm & Hlook).
      exists m. split; [exact Hm|]. intros k. rewrite Hlook.
      destruct (decide (k = k0)) as [->|Hne].
      * rewrite Et, lookup_insert_eq.
        rewrite (bool_decide_eq_true_2 (k0 ∈ k0 :: ks))
          by apply list_elem_of_here.
        simpl. now destruct (bool_decide (k0 ∈ ks)).
      * rewrite lookup_insert_ne by congruence.
        assert (bool_decide (k ∈ k0 :: ks) = bool_decide (k ∈ ks)) as ->.
        { apply bool_decide_ext. rewrite elem_of_cons. tauto. }
        reflexivity.
    + destruct (IH by_step H) as (m & Hm & Hlook).
      exists m. split; [exact Hm|]. intros k. rewrite Hlook.
      destruct (decide (k = k0)) as [->|Hne].
      * rewrite Et, !andb_false_r. reflexivity.
      * assert (bool_decide (k ∈ k0 :: ks) = bool_decide (k ∈ ks)) as ->.
        { apply bool_decide_ext. rewrite elem_of_cons. tauto. }
        reflexivity.
Qed.

(** X6.  When every literal-block file of the steps exists, the blocks are
    collected without any change to the world, into a dictionary that has
    the key [k] exactly for the step numbers 1 to 4 that name at least one
    file, with the blocks of those files in order, each the text of its file
    as text mode reads it with the trailing white space replaced by one line
    feed. *)
Theorem collect_step_blocks_ok (a : args) (w : world) :
  first_missing w (step_block_paths a (seq 1 4)) = None →
  ∃ m, _collect_step_extra_blocks a w = (inr m, w)
       ∧ ∀ k : nat, m !! k
              = if bool_decide (1 ≤ k ≤ 4)%nat
                   && truthy_list (extra_block_k (a_step a k))
                then Some (map (block_of w)
                             (default [] (extra_block_k (a_step a k))))
                else None.
Proof.
  intros H. destruct (collect_step_loop_ok a w (seq 1 4) ∅ H) as (m & Hm & Hl).
  exists m. split; [exact Hm|]. intros k. rewrite Hl, lookup_empty.
  assert (bool_decide (k ∈ seq 1 4) = bool_decide (1 ≤ k ≤ 4)%nat) as ->; [|done].
  apply bool_decide_ext. rewrite elem_of_seq. lia.
Qed.

(** X6 at a two-step run with one literal block for step 2. *)
Lemma collect_step_blocks_ok_witness :
  ∃ m, _collect_step_extra_blocks args_two_steps world_s2 = (inr m, world_s2)
       ∧ m !! 2%nat = Some ["%geom" +:+ nl +:+ "end" +:+ nl]
       ∧ m !! 1%nat = None.
Proof.
  assert (first_missing world_s2 (step_block_paths args_two_steps (seq 1 4))
          = None) as Hall by (vm_compute; reflexivity).
  destruct (collect_step_blocks_ok args_two_steps world_s2 Hall)
    as (m & Hm & Hl).
  exists m. split; [exact Hm|]. rewrite !Hl. split; vm_compute; reflexivity.
Defined.

(** ** The steps of a compound run *)

Lemma truthy_py_or x y : truthy y = true → truthy (py_or x y) = true.
Proof. intros H. unfold py_or. now destruct (truthy x) eqn:E. Qed.

Lemma the_truthy_nonempty x : truthy x = true → the x ≠ EmptyString.
Proof. destruct x as [s|]; [|discriminate]. simpl. apply nonempty_true. Qed.

(** X7.  There are as many steps as there are step numbers from 1 to 4 with
    at least one numbered option, hence at most four; and there is no step
    exactly when no numbered option is present, so that [main] never reaches
    its message about numbered options without steps. *)
Theorem collect_steps_count (a : args) :
  length (_collect_compound_steps a)
  = length (List.filter (λ k, numbered_option_present (a_step a k)) (seq 1 4))
  ∧ (length (_collect_compound_steps a) ≤ 4)%nat
  ∧ (_collect_compound_steps a = [] ↔ _any_numbered_options_present a = false).
Proof.
  unfold _any_numbered_options_present, _collect_compound_steps.
  simpl seq. simpl existsb. simpl foldl. simpl List.filter.
  destruct (numbered_option_present (a_step a 1)),
    (numbered_option_present (a_step a 2)),
    (numbered_option_present (a_step a 3)),
    (numbered_option_present (a_step a 4)); simpl;
    (split; [reflexivity|split; [lia|split; intros H; try discriminate H;
                                      reflexivity]]).
Qed.

(** X8.  Every step collected for a compound run has a method, a basis and
    a job kind that are not empty (the defaults stand in for what is not
    given), and extra tokens free of white space and commas. *)
Theorem collect_steps_well_formed (a : args) (st : step) :
  st ∈ _collect_compound_steps a →
  truthy (st_method st) = true ∧ truthy (st_basis st) = true
  ∧ st_job st ≠ EmptyString
  ∧ ∀ t, t ∈ st_extra_tokens st → clean_token t.
Proof.
  assert (∀ k,
    let s := a_step a k in
    truthy (py_or (method_k s) (py_or (a_method a) (Some "wB97X-D4"))) = true
    ∧ truthy (py_or (basis_k s) (py_or (a_basis a) (Some "def2-SVPD"))) = true
    ∧ the (py_or (job_k s) (Some "sp")) ≠ EmptyString
    ∧ ∀ t, t ∈ _parse_extras (extra_k s) → clean_token t) as Hk.
  { intros k s. split; [|split; [|split]].
    - now repeat apply truthy_py_or.
    - now repeat apply truthy_py_or.
    - now apply the_truthy_nonempty, truthy_py_or.
    - intros t. apply parse_extras_tokens_clean. }
  unfold _collect_compound_steps. simpl seq. simpl foldl.
  destruct (numbered_option_present (a_step a 1)),
    (numbered_option_present (a_step a 2)),
    (numbered_option_present (a_step a 3)),
    (numbered_option_present (a_step a 4)); simpl; intros Hin;
    each_elem Hin ltac:(apply Hk).
Qed.

(** X8 at the two-step run: its second step. *)
Lemma collect_steps_well_formed_witness :
  _collect_compound_steps args_two_steps
  = [ Step "optfreq" (Some "wB97X-D4") (Some "def2-SVPD") (Some "DEFGRID3")
        None None [] None 10;
      Step "sp" (Some "wB97X-D4") (Some "def2-SVPD") (Some "DEFGRID3")
        None None [] None 10 ]
  ∧ truthy (Some "wB97X-D4") = true.
Proof.
  split; [vm_compute; reflexivity|].
  assert (Step "sp" (Some "wB97X-D4") (Some "def2-SVPD") (Some "DEFGRID3")
            None None [] None 10 ∈ _collect_compound_steps args_two_steps)
    as Hin by apply list_elem_of_further, list_elem_of_here.
  destruct (collect_steps_well_formed args_two_steps _ Hin) as (H & _).
  exact H.
Defined.

(** ** The body and the header of a compound document *)

Lemma compound_step_blocks_ext xyzfile charge mult seb seb' comp i st :
  blocks_at seb i = blocks_at seb' i →
  compound_step xyzfile charge mult seb comp i st
  = compound_step xyzfile charge mult seb' comp i st.
Proof.
  unfold blocks_at. intros H. unfold compound_step. cbv zeta. now rewrite H.
Qed.

Lemma compound_loop_blocks_ext xyzfile charge mult seb seb' steps comp i :
  (∀ j, (i ≤ j < i + length steps)%nat → blocks_at seb j = blocks_at seb' j) →
  compound_loop xyzfile charge mult seb comp i steps
  = compound_loop xyzfile charge mult seb' comp i steps.
Proof.
  revert comp i. induction steps as [|st steps IH]; intros comp i H;
    [reflexivity|].
  simpl in *.
  rewrite (compound_step_blocks_ext _ _ _ seb seb') by (apply H; lia).
  apply IH. intros j Hj. apply H. lia.
Qed.

(** X9.  The compound writer looks the literal blocks of a step up under the
    position of the step in the list, counted from 1: two dictionaries that
    agree on the positions 1 to the number of steps give the same body, so
    blocks kept under any other number are never written. *)
Theorem compound_blocks_by_position (xyzfile : string) (charge mult : Z)
    (steps : list step) (seb seb' : option (gmap nat (list string))) :
  (∀ i, (1 ≤ i ≤ length steps)%nat → blocks_at seb i = blocks_at seb' i) →
  compound_comp xyzfile charge mult steps seb
  = compound_comp xyzfile charge mult steps seb'.
Proof.
  intros H. unfold compound_comp. cbv zeta. f_equal.
  apply compound_loop_blocks_ext. intros j Hj. apply H. lia.
Qed.

(** X9 at a run whose only step has the number 2: the block given for
    step 2 is stored under 2, the step stands at position 1, and the body is
    that of a run without literal blocks. *)
Lemma compound_blocks_by_position_witness :
  compound_comp "mol.xyz" 0 1 [step_sp]
    (Some {[ 2%nat := ["%geom" +:+ nl +:+ "end" +:+ nl] ]})
  = compound_comp "mol.xyz" 0 1 [step_sp] None.
Proof.
  apply compound_blocks_by_position. intros i Hi. simpl in Hi.
  assert (i = 1%nat) as -> by lia. vm_compute. reflexivity.
Defined.

Lemma count_end_step xyzfile charge mult seb i st :
  count_tok (String.eqb ("Step_end" +:+ nl))
    (compound_step xyzfile charge mult seb [] i st) = 1%nat.
Proof.
  destruct (compound_step_chunks xyzfile charge mult seb i st)
    as (pre & lit & -> & Hsec & _).
  rewrite !count_tok_app.
  rewrite (count_tok_not_eq _ (step_bang st :: pre ++ [_scf_block 300] ++ lit)).
  2:{ intros t Ht%Hsec. now apply section_chunk_not_end. }
  destruct (i =? 1)%nat; reflexivity.
Qed.

Lemma count_end_loop xyzfile charge mult seb steps i :
  count_tok (String.eqb ("Step_end" +:+ nl))
    (compound_loop xyzfile charge mult seb [] i steps) = length steps.
Proof.
  revert i. induction steps as [|st steps IH]; intros i; [reflexivity|].
  simpl. rewrite compound_loop_app, count_tok_app, count_end_step, IH.
  reflexivity.
Qed.

(** X10.  The body of a compound document opens with [%compound], closes
    with [EndRun], and holds exactly one end marker per step, whatever the
    options and the literal blocks are. *)
Theorem compound_end_markers (xyzfile : string) (charge mult : Z)
    (steps : list step) (seb : option (gmap nat (list string))) :
  compound_comp xyzfile charge mult steps seb
  = ["%compound"] ++ compound_loop xyzfile charge mult seb [] 1 steps
    ++ ["EndRun"]
  ∧ count_tok (String.eqb ("Step_end" +:+ nl))
      (compound_comp xyzfile charge mult steps seb) = length steps.
Proof.
  assert (compound_comp xyzfile charge mult steps seb
          = ["%compound"] ++ compound_loop xyzfile charge mult seb [] 1 steps
            ++ ["EndRun"]) as H.
  { unfold compound_comp. cbv zeta. rewrite compound_loop_app. simpl.
    reflexivity. }
  split; [exact H|]. rewrite H, !count_tok_app, count_end_loop.
  change (count_tok (String.eqb ("Step_end" +:+ nl)) ["%compound"]) with 0%nat.
  change (count_tok (String.eqb ("Step_end" +:+ nl)) ["EndRun"]) with 0%nat.
  lia.
Qed.

Lemma string_of_uint_chars d :
  all_chars token_char (NilEmpty.string_of_uint d) = true.
Proof. induction d; simpl; [reflexivity|..]; rewrite IHd; reflexivity. Qed.

(** A printed integer is a non-empty string of digits, with a sign at
    most: no white space, no comma. *)
Lemma str_int_clean n : clean_token (str_int n).
Proof.
  unfold str_int, clean_token.
  destruct (Z.to_int n) as [d|d]; simpl.
  - destruct d; simpl; try (split; reflexivity);
      rewrite string_of_uint_chars; split; reflexivity.
  - destruct d; simpl; try (split; reflexivity);
      rewrite string_of_uint_chars; split; reflexivity.
Qed.

Lemma nonempty_app_r a b : nonempty b = true → nonempty (a +:+ b) = true.
Proof.
  destruct a; [trivial|reflexivity].
Qed.

Lemma rstrip_app_keep a b :
  nonempty (rstrip b) = true → rstrip (a +:+ b) = a +:+ rstrip b.
Proof.
  intros Hb. induction a as [|c a IH]; [reflexivity|].
  simpl. rewrite IH, (nonempty_app_r a _ Hb), andb_false_r. reflexivity.
Qed.

Lemma rstrip_app_clean a b : clean_token b → rstrip (a +:+ b) = a +:+ b.
Proof.
  intros [Hne Hcl].
  assert (rstrip b = b) as Hb by now apply rstrip_no_space, clean_no_space.
  rewrite rstrip_app_keep; rewrite Hb; [reflexivity|exact Hne].
Qed.

Lemma compound_header_eq pal maxcore_mb pal_style :
  compound_header pal maxcore_mb pal_style
  = (if String.eqb pal_style "bang" then "! PAL" +:+ str_int pal +:+ nl
     else if String.eqb pal_style "block" then _pal_block pal +:+ nl
     else EmptyString)
    +:+ "%MaxCore " +:+ str_int maxcore_mb.
Proof.
  unfold compound_header, strip. cbv zeta.
  pose proof (str_int_clean maxcore_mb) as Hmb.
  destruct (String.eqb pal_style "bang");
    [|destruct (String.eqb pal_style "block")]; simpl app; unfold join.
  - rewrite concat_cons_cons. simpl String.concat.
    rewrite <- !str_append_assoc, rstrip_app_clean by exact Hmb.
    reflexivity.
  - rewrite concat_cons_cons. simpl String.concat. unfold _pal_block.
    rewrite <- !str_append_assoc, rstrip_app_clean by exact Hmb.
    reflexivity.
  - simpl String.concat. rewrite rstrip_app_clean by exact Hmb.
    reflexivity.
Qed.

Lemma compound_header_nonempty pal maxcore_mb pal_style :
  nonempty (compound_header pal maxcore_mb pal_style) = true.
Proof.
  rewrite compound_header_eq.
  destruct (String.eqb pal_style "bang");
    [|destruct (String.eqb pal_style "block")]; reflexivity.
Qed.

(** X11.  The header of a compound document is never empty, and [strip]
    changes nothing in it: it is the PAL line for the style [bang], the
    [%pal] block for the style [block], and nothing for any other style,
    followed by the [%MaxCore] line.  So a style other than these two gives
    a compound document without any directive for the number of cores. *)
Theorem compound_header_form (pal maxcore_mb : Z) (pal_style : string) :
  nonempty (compound_header pal maxcore_mb pal_style) = true
  ∧ compound_header pal maxcore_mb pal_style
    = (if String.eqb pal_style "bang" then "! PAL" +:+ str_int pal +:+ nl
       else if String.eqb pal_style "block" then _pal_block pal +:+ nl
       else EmptyString)
      +:+ "%MaxCore " +:+ str_int maxcore_mb.
Proof.
  split; [apply compound_header_nonempty|apply compound_header_eq].
Qed.

(** ** The geometry line of a compound document *)

Lemma lines_not_nil s : ∃ l ls, lines s = l :: ls.
Proof.
  induction s as [|c r (l & ls & IH)]; [eauto|]. cbn [lines].
  destruct (Ascii.eqb c LF); [eauto|]. rewrite IH. eauto.
Qed.

Lemma lines_app_nl a b : lines (a +:+ nl +:+ b) = lines a ++ lines b.
Proof.
  induction a as [|c a IH]; [reflexivity|].
  change (String c a +:+ nl +:+ b) with (String c (a +:+ nl +:+ b)).
  cbn [lines]. rewrite IH. destruct (Ascii.eqb c LF); [reflexivity|].
  destruct (lines_not_nil a) as (l & ls & ->). reflexivity.
Qed.

Lemma lines_nl_cons b : lines (nl +:+ b) = EmptyString :: lines b.
Proof. reflexivity. Qed.

Lemma lines_snoc_nl a : lines (a +:+ nl) = lines a ++ [EmptyString].
Proof.
  change (a +:+ nl) with (a +:+ nl +:+ EmptyString). apply lines_app_nl.
Qed.

Lemma lines_one_line s : one_line s = true → lines s = [s].
Proof.
  unfold one_line. induction s as [|c r IH]; [reflexivity|].
  cbn [all_chars lines]. intros [Hc Hr]%andb_true_iff.
  apply negb_true_iff in Hc. now rewrite Hc, (IH Hr).
Qed.

Lemma lines_join l : l ≠ [] → lines (join nl l) = flat_map lines l.
Proof.
  unfold join. induction l as [|t l IH]; [done|]. intros _.
  destruct l as [|t' l].
  - simpl. now rewrite app_nil_r.
  - rewrite concat_cons_cons, lines_app_nl, IH by done. reflexivity.
Qed.

Lemma one_line_app a b : one_line (a +:+ b) = one_line a && one_line b.
Proof. apply all_chars_app. Qed.

Lemma one_line_clean t : clean_token t → one_line t = true.
Proof.
  intros [_ H]. revert H. apply all_chars_impl. intros c Hc.
  apply token_char_not_space in Hc. apply negb_true_iff, Ascii.eqb_neq.
  intros ->. discriminate Hc.
Qed.

Lemma one_line_str_int n : one_line (str_int n) = true.
Proof. apply one_line_clean, str_int_clean. Qed.

Lemma xyz_line_one_line charge mult xyzfile :
  one_line xyzfile = true → one_line (xyz_line charge mult xyzfile) = true.
Proof.
  intros H. unfold xyz_line.
  now rewrite !one_line_app, !one_line_str_int, H.
Qed.

Lemma lines_scf_block : lines (_scf_block 300) = ["%scf"; "  MaxIter 300"; "end"].
Proof. vm_compute. reflexivity. Qed.

Lemma lines_tddft_block n :
  lines (_tddft_block n) = ["%tddft"; "  nroots " +:+ str_int n; "end"].
Proof.
  unfold _tddft_block. rewrite lines_app_nl.
  rewrite <- (str_append_assoc "  nroots "), lines_app_nl.
  rewrite (lines_one_line ("  nroots " +:+ str_int n)); [reflexivity|].
  now rewrite one_line_app, one_line_str_int.
Qed.

Lemma lines_compound_header pal maxcore_mb pal_style :
  lines (compound_header pal maxcore_mb pal_style)
  = (if String.eqb pal_style "bang" then ["! PAL" +:+ str_int pal]
     else if String.eqb pal_style "block"
     then ["%pal"; "  nprocs " +:+ str_int pal; "end"]
     else [])
    ++ ["%MaxCore " +:+ str_int maxcore_mb].
Proof.
  rewrite compound_header_eq.
  assert (lines ("%MaxCore " +:+ str_int maxcore_mb)
          = ["%MaxCore " +:+ str_int maxcore_mb]) as Hmb
    by (apply lines_one_line; now rewrite one_line_app, one_line_str_int).
  destruct (String.eqb pal_style "bang");
    [|destruct (String.eqb pal_style "block")].
  - rewrite <- (str_append_assoc "! PAL"), str_append_assoc.
    rewrite lines_app_nl, Hmb, lines_one_line; [reflexivity|].
    now rewrite one_line_app, one_line_str_int.
  - unfold _pal_block. rewrite !str_append_assoc, lines_app_nl.
    rewrite <- (str_append_assoc "  nprocs "), lines_app_nl, lines_app_nl, Hmb.
    rewrite (lines_one_line ("  nprocs " +:+ str_int pal)); [reflexivity|].
    now rewrite one_line_app, one_line_str_int.
  - exact Hmb.
Qed.

Lemma compound_step_eq xyzfile charge mult seb i st :
  compound_step xyzfile charge mult seb [] i st
  = ["New_step"] ++ stage_sections seb i st
    ++ (if (i =? 1)%nat then [xyz_line charge mult xyzfile +:+ nl] else [])
    ++ ["Step_end" +:+ nl].
Proof.
  unfold compound_step, stage_sections, moinp_chunk, stage_literal, blocks_at.
  cbv zeta.
  destruct (truthy (st_moinp st)), (String.eqb (st_job st) "tddft"),
    (seb ≫= (λ d, d !! i)), (i =? 1)%nat; reflexivity.
Qed.

Lemma compound_comp_eq xyzfile charge mult st steps seb :
  compound_comp xyzfile charge mult (st :: steps) seb
  = ["%compound"; "New_step"] ++ stage_sections seb 1 st
    ++ [xyz_line charge mult xyzfile +:+ nl; "Step_end" +:+ nl]
    ++ compound_loop xyzfile charge mult seb [] 2 steps ++ ["EndRun"].
Proof.
  unfold compound_comp. cbv zeta. simpl compound_loop.
  rewrite compound_loop_app, compound_step_app, compound_step_eq.
  simpl. now rewrite <- !app_assoc.
Qed.

Lemma elem_of_flat_map {A B} (f : A → list B) (l : list A) (y : B) :
  y ∈ flat_map f l ↔ ∃ x, x ∈ l ∧ y ∈ f x.
Proof.
  rewrite list_elem_of_In, in_flat_map. split; intros (x & Hx & Hy); exists x.
  - now rewrite !list_elem_of_In.
  - now rewrite <- !list_elem_of_In.
Qed.

(** The geometry line is no line of the sections of a stage, unless the
    caller put it there. *)
Lemma geometry_not_in_sections charge mult xyzfile seb i st :
  (∀ t, t ∈ step_bang st :: moinp_chunk st ++ stage_literal seb i →
        xyz_line charge mult xyzfile ∉ lines t) →
  xyz_line charge mult xyzfile ∉ flat_map lines (stage_sections seb i st).
Proof.
  intros Hcaller (t & Ht & Hin)%elem_of_flat_map. unfold stage_sections in Ht.
  rewrite !elem_of_app in Ht. destruct Ht as [Ht|[Ht|[Ht|[Ht|Ht]]]].
  - apply (Hcaller t); [|exact Hin].
    apply elem_of_cons in Ht as [->|Ht]; [apply list_elem_of_here|].
    now apply elem_of_nil in Ht.
  - apply (Hcaller t); [|exact Hin].
    apply list_elem_of_further, elem_of_app. now left.
  - destruct (String.eqb (st_job st) "tddft"); [|now apply elem_of_nil in Ht].
    apply elem_of_cons in Ht as [->|Ht]; [|now apply elem_of_nil in Ht].
    rewrite lines_tddft_block in Hin. no_elem Hin.
  - apply elem_of_cons in Ht as [->|Ht]; [|now apply elem_of_nil in Ht].
    rewrite lines_scf_block in Hin. no_elem Hin.
  - apply (Hcaller t); [|exact Hin].
    apply list_elem_of_further, elem_of_app. now right.
Qed.

(** From stage 2 on, the geometry line is no line of a stage, unless the
    caller put it there. *)
Lemma geometry_not_in_later charge mult xyzfile seb steps i :
  (2 ≤ i)%nat →
  (∀ t, t ∈ stage_texts seb i steps → xyz_line charge mult xyzfile ∉ lines t) →
  xyz_line charge mult xyzfile
  ∉ flat_map lines (compound_loop xyzfile charge mult seb [] i steps).
Proof.
  revert i. induction steps as [|st steps IH]; intros i Hi Hcaller.
  - apply not_elem_of_nil.
  - simpl compound_loop. rewrite compound_loop_app, compound_step_eq.
    assert ((i =? 1)%nat = false) as -> by (apply Nat.eqb_neq; lia).
    rewrite !flat_map_app, !elem_of_app. simpl stage_texts in Hcaller.
    intros [[H|[H|[H|H]]]|H].
    + simpl in H. no_elem H.
    + revert H. apply geometry_not_in_sections. intros t Ht. apply Hcaller.
      apply elem_of_cons in Ht as [->|Ht]; [apply list_elem_of_here|].
      apply list_elem_of_further. rewrite app_assoc, elem_of_app. now left.
    + now apply elem_of_nil in H.
    + simpl in H. no_elem H.
    + revert H. apply IH; [lia|]. intros t Ht. apply Hcaller.
      apply list_elem_of_further. rewrite !elem_of_app. tauto.
Qed.

(** The lines of a compound document. *)
Lemma compound_text_lines xyzfile charge mult st steps pal maxcore_mb
    pal_style global seb :
  one_line xyzfile = true →
  lines (compound_text xyzfile charge mult (st :: steps) pal maxcore_mb
           pal_style global seb)
  = flat_map (λ t, lines t ++ [EmptyString])
      (compound_header pal maxcore_mb pal_style :: global_text global)
    ++ ["%compound"; "New_step"] ++ flat_map lines (stage_sections seb 1 st)
    ++ [xyz_line charge mult xyzfile; EmptyString; "Step_end"; EmptyString]
    ++ flat_map lines (compound_loop xyzfile charge mult seb [] 2 steps)
    ++ ["EndRun"; EmptyString].
Proof.
  intros Hx. unfold compound_text. cbv zeta.
  rewrite compound_header_nonempty.
  assert (lines (join nl (compound_comp xyzfile charge mult (st :: steps) seb)
                 +:+ nl)
          = ["%compound"; "New_step"] ++ flat_map lines (stage_sections seb 1 st)
            ++ [xyz_line charge mult xyzfile; EmptyString; "Step_end";
                EmptyString]
            ++ flat_map lines (compound_loop xyzfile charge mult seb [] 2 steps)
            ++ ["EndRun"; EmptyString]) as Hbody.
  { assert (flat_map lines
              [xyz_line charge mult xyzfile +:+ nl; "Step_end" +:+ nl]
            = [xyz_line charge mult xyzfile; EmptyString; "Step_end";
               EmptyString]) as Hgeom.
    { cbn [flat_map].
      rewrite lines_snoc_nl, (lines_one_line _ (xyz_line_one_line _ _ _ Hx)).
      reflexivity. }
    rewrite lines_snoc_nl, lines_join, compound_comp_eq by
      (rewrite compound_comp_eq; discriminate).
    rewrite !flat_map_app, Hgeom.
    change (flat_map lines ["%compound"; "New_step"])
      with ["%compound"; "New_step"].
    change (flat_map lines ["EndRun"]) with ["EndRun"].
    now rewrite <- !app_assoc. }
  assert (∀ x : string, EmptyString +:+ x = x) as Hnil by reflexivity.
  unfold global_text. destruct (truthy_list global); cbn [flat_map].
  - rewrite !str_append_assoc, lines_app_nl, lines_nl_cons.
    rewrite lines_app_nl, lines_nl_cons, Hbody.
    rewrite app_nil_r, <- !app_assoc. reflexivity.
  - rewrite !str_append_assoc, lines_app_nl, lines_nl_cons, Hnil, Hbody.
    rewrite app_nil_r, <- !app_assoc. reflexivity.
Qed.

Lemma count_tok_not_elem (k : string) l :
  k ∉ l → count_tok (String.eqb k) l = 0.
Proof. intros H. apply count_tok_not_eq. intros t Ht ->. contradiction. Qed.

(** C2, amended.  Take a compound document of one or more stages that the
    writer returns from, whose geometry reference holds no line feed, and in
    which no text of the caller (the global literal text, and the directive
    line, the restart reference and the literal text of each stage) has the
    geometry line among its lines.  Then the geometry line
    [* xyzfile <charge> <mult> <ref>] is exactly one line of the file.  It
    stands in the block of the first stage: after the start marker and the
    sections of that stage, which end with the SCF block and the literal
    text of the stage, and before the end marker of that stage, an empty line
    apart.  It is no line of the preamble, of the sections of the first
    stage, or of the later stages. *)
Theorem C2_geometry_line_once (outpath xyzfile : string) (charge mult : Z)
    (st : step) (steps : list step) (pal maxcore_mb : Z) (pal_style : string)
    (global : option (list string)) (seb : option (gmap nat (list string)))
    (w w' : world) :
  let gl :=
    "* xyzfile " +:+ str_int charge +:+ " " +:+ str_int mult +:+ " "
    +:+ xyzfile in
  let preamble :=
    flat_map (λ t, lines t ++ [EmptyString])
      (compound_header pal maxcore_mb pal_style :: global_text global) in
  let sections := flat_map lines (stage_sections seb 1 st) in
  let later :=
    flat_map lines (compound_loop xyzfile charge mult seb [] 2 steps) in
  one_line xyzfile = true →
  (∀ t, t ∈ caller_texts global seb (st :: steps) → gl ∉ lines t) →
  write_compound outpath xyzfile charge mult (st :: steps) pal maxcore_mb
    pal_style global seb w = (inr tt, w') →
  ∃ doc,
    files w' !! outpath = Some doc
    ∧ lines doc
      = preamble ++ ["%compound"; "New_step"] ++ sections
        ++ [gl; EmptyString; "Step_end"; EmptyString]
        ++ later ++ ["EndRun"; EmptyString]
    ∧ count_tok (String.eqb gl) (lines doc) = 1
    ∧ (gl ∉ preamble) ∧ (gl ∉ sections) ∧ (gl ∉ later)
    ∧ ∃ before,
        sections
        = before ++ lines (_scf_block 300)
          ++ flat_map lines (stage_literal seb 1).
Proof.
  intros gl preamble sections later Hx Hcaller Hrun.
  change gl with (xyz_line charge mult xyzfile) in *. clear gl.
  apply write_compound_returns in Hrun. subst w'.
  exists (compound_text xyzfile charge mult (st :: steps) pal maxcore_mb
            pal_style global seb).
  split; [cbn [files]; apply lookup_insert_eq|].
  pose proof (compound_text_lines xyzfile charge mult st steps pal maxcore_mb
                pal_style global seb Hx) as Hlines.
  fold preamble sections later in Hlines.
  unfold caller_texts in Hcaller. simpl stage_texts in Hcaller.
  assert (xyz_line charge mult xyzfile ∉ preamble) as Hpre.
  { intros (t & Ht & Hin)%elem_of_flat_map.
    apply elem_of_app in Hin as [Hin|Hin]; [|no_elem Hin].
    apply elem_of_cons in Ht as [->|Ht].
    - rewrite lines_compound_header in Hin.
      destruct (String.eqb pal_style "bang");
        [|destruct (String.eqb pal_style "block")]; simpl in Hin;
        no_elem Hin.
    - apply (Hcaller t); [|exact Hin]. apply elem_of_app. now left. }
  assert (xyz_line charge mult xyzfile ∉ sections) as Hsec.
  { apply geometry_not_in_sections. intros t Ht. apply Hcaller.
    apply elem_of_app. right.
    apply elem_of_cons in Ht as [->|Ht]; [apply list_elem_of_here|].
    apply list_elem_of_further. rewrite app_assoc, elem_of_app. now left. }
  assert (xyz_line charge mult xyzfile ∉ later) as Hlater.
  { apply geometry_not_in_later; [lia|]. intros t Ht. apply Hcaller.
    apply elem_of_app. right. apply list_elem_of_further.
    rewrite !elem_of_app. tauto. }
  split; [exact Hlines|]. split; [|split; [exact Hpre|]].
  - rewrite Hlines, !count_tok_app.
    rewrite (count_tok_not_elem _ _ Hpre), (count_tok_not_elem _ _ Hsec),
      (count_tok_not_elem _ _ Hlater).
    rewrite (count_tok_not_elem _ ["%compound"; "New_step"])
      by (intros H; no_elem H).
    rewrite (count_tok_not_elem _ ["EndRun"; EmptyString])
      by (intros H; no_elem H).
    rewrite count_tok_cons, String.eqb_refl.
    rewrite (count_tok_not_elem _ [EmptyString; "Step_end"; EmptyString])
      by (intros H; no_elem H).
    reflexivity.
  - split; [exact Hsec|]. split; [exact Hlater|].
    exists (flat_map lines
              ([step_bang st] ++ moinp_chunk st
               ++ (if String.eqb (st_job st) "tddft"
                   then [_tddft_block (st_nstates st)] else []))).
    unfold sections, stage_sections. rewrite !flat_map_app.
    cbn [flat_map]. now rewrite app_nil_r, <- !app_assoc.
Qed.

(** ** What the writers and [main] do to the files *)





(** ** Existing outputs and the folder mode *)





(** What the reading of the blocks before the loop of the folder mode comes
    to: an exception that names the first missing file, with the world as it
    was, or the blocks, with which the loop is run; the exit status is 0
    when the loop returns. *)
Lemma main_folder_run a ov pattern folder t ts w :
  match first_missing w (referenced_blocks a) with
  | Some p =>
      main_folder a ov pattern folder (t :: ts) w = (inl (not_found p), w)
  | None =>
      ∃ gb sb steps,
        main_folder a ov pattern folder (t :: ts) w
        = match folder_loop a ov (_any_numbered_options_present a) gb sb
                  steps (t :: ts) w with
          | (inl e, w') => (inl e, w')
          | (inr _, w') => (inr 0%Z, w')
          end
  end.
Proof.
  unfold main_folder, referenced_blocks. cbv zeta.
  pose proof (collect_global_result a w) as Hg.
  destruct (_any_numbered_options_present a) eqn:Hnum.
  - rewrite first_missing_app.
    destruct (first_missing w (block_paths (a_extra_block a))) as [p|] eqn:Eg.
    + now apply bind_raise.
    + destruct Hg as [gb Hg].
      pose proof (collect_step_loop_result a w (seq 1 4) ∅) as Hs.
      destruct (first_missing w (step_block_paths a (seq 1 4))) as [p|].
      * then_value Hg. apply bind_raise. now apply bind_raise.
      * destruct Hs as [m Hm].
        exists gb, (Some m), (_collect_compound_steps a).
        then_value Hg.
        assert ((_collect_step_extra_blocks a ≫= λ m0, mret (Some m0)) w
                = (inr (Some m), w)) as Hsb
          by (unfold _collect_step_extra_blocks; now then_value Hm).
        then_value Hsb. reflexivity.
  - destruct (first_missing w (block_paths (a_extra_block a))) as [p|].
    + now apply bind_raise.
    + destruct Hg as [gb Hg].
      exists gb, None, [].
      then_value Hg.
      then_value (eq_refl : (mret None : Py (option (gmap nat (list string)))) w
                            = (inr None, w)).
      reflexivity.
Qed.



(** X16.  In the folder mode the literal blocks are read once, before the
    first file is written: when one is missing and at least one geometry
    file matched, the run ends with [FileNotFoundError] for the first missing
    path and no file has been written or changed.  When no geometry file
    matched, the blocks are not read at all: the run prints a warning and
    returns 0 even if a block is missing. *)
Theorem main_folder_missing_block (a : args) (overwrite : bool)
    (pattern folder : string) (w : world) :
  (∀ t ts p,
     first_missing w (referenced_blocks a) = Some p →
     main_folder a overwrite pattern folder (t :: ts) w
     = (inl (FileNotFoundError ("extra block file not found: " +:+ p)), w))
  ∧ main_folder a overwrite pattern folder [] w
    = (inr 0%Z,
       World (files w)
         (printed w ++ ["[WARN] No files matched " +:+ pattern +:+ " in "
                        +:+ folder])).
Proof.
  split; [|reflexivity]. intros t ts p Hp.
  pose proof (main_folder_run a overwrite pattern folder t ts w) as H.
  now rewrite Hp in H.
Qed.

(** ** The single-step document and the number of excited states *)

Lemma concat_snoc sep x l (y : string) :
  String.concat sep ((x :: l) ++ [y]) = String.concat sep (x :: l) +:+ sep +:+ y.
Proof.
  revert x. induction l as [|z l IH]; intros x; [reflexivity|].
  change (String.concat sep ((x :: z :: l) ++ [y]))
    with (x +:+ sep +:+ String.concat sep ((z :: l) ++ [y])).
  rewrite IH, concat_cons_cons. now rewrite !str_append_assoc.
Qed.

Lemma concat_head sep (x : string) l :
  ∃ M, String.concat sep (x :: l) = x +:+ M.
Proof.
  destruct l as [|z l].
  - exists EmptyString. simpl. now rewrite str_append_nil_r.
  - eexists. apply concat_cons_cons.
Qed.

Lemma concat_elem sep l1 (x : string) l2 :
  ∃ L R, String.concat sep (l1 ++ x :: l2) = L +:+ x +:+ R.
Proof.
  induction l1 as [|a l1 IH].
  - exists EmptyString. apply concat_head.
  - destruct IH as (L & R & IH). exists (a +:+ sep +:+ L), R.
    assert (∃ z l, l1 ++ x :: l2 = z :: l) as (z & l & Hl)
      by (destruct l1; simpl; eauto).
    simpl app. rewrite Hl, concat_cons_cons, <- Hl, IH.
    now rewrite !str_append_assoc.
Qed.

(** The chunks of a single-step document: the header, the control blocks,
    the restart reference and the literal blocks if any, the geometry. *)
Lemma single_step_content_chunks xyzfile charge mult m b j g c s extra pal
    maxcore_mb nstates moinp pal_style extra_blocks :
  ∃ head_rest blocks,
    single_step_content xyzfile charge mult m b j g c s extra pal maxcore_mb
      nstates moinp pal_style extra_blocks
    = ((single_step_header m b j g c s extra moinp +:+ head_rest) :: [blocks]
       ++ (if truthy moinp then ["%moinp " +:+ dq +:+ the moinp +:+ dq] else [])
       ++ (if truthy_list extra_blocks
           then [join nl (default [] extra_blocks)] else []))
      ++ [nl +:+ xyz_line charge mult xyzfile +:+ nl +:+ nl].
Proof.
  unfold single_step_content. cbv zeta.
  exists (if String.eqb pal_style "bang"
          then nl +:+ nl +:+ "! PAL" +:+ str_int pal else EmptyString).
  exists (join nl ((if String.eqb pal_style "bang" then [] else [_pal_block pal])
                   ++ [_maxcore_block maxcore_mb]
                   ++ (if String.eqb j "tddft"
                       then [_tddft_block nstates] else [])
                   ++ [_scf_block 300])).
  destruct (String.eqb pal_style "bang"), (String.eqb j "tddft"),
    (truthy moinp), (truthy_list extra_blocks); simpl app;
    rewrite ?str_append_nil_r; reflexivity.
Qed.

(** X17.  The text of a single-step document begins with the directive
    line and ends with the geometry line between two empty lines; when a
    restart file is given, its [%moinp] line stands before the geometry
    line. *)
Theorem single_step_document_shape (xyzfile : string) (charge mult : Z)
    (m b : option string) (j : string) (g c s : option string)
    (extra : option (list string)) (pal maxcore_mb nstates : Z)
    (moinp : option string) (pal_style : string)
    (extra_blocks : option (list string)) :
  let text :=
    join (nl +:+ nl)
      (single_step_content xyzfile charge mult m b j g c s extra pal
         maxcore_mb nstates moinp pal_style extra_blocks) in
  let last := nl +:+ nl +:+ nl +:+ xyz_line charge mult xyzfile +:+ nl +:+ nl in
  (∃ middle,
     text = single_step_header m b j g c s extra moinp +:+ middle +:+ last)
  ∧ (truthy moinp = true →
     ∃ before between,
       text = before +:+ ("%moinp " +:+ dq +:+ the moinp +:+ dq) +:+ between
              +:+ last).
Proof.
  intros text last.
  destruct (single_step_content_chunks xyzfile charge mult m b j g c s extra
              pal maxcore_mb nstates moinp pal_style extra_blocks)
    as (hr & blocks & Hc).
  unfold text, join. rewrite Hc, concat_snoc. split.
  - destruct (concat_head (nl +:+ nl)
                (single_step_header m b j g c s extra moinp +:+ hr)
                ([blocks]
                 ++ (if truthy moinp
                     then ["%moinp " +:+ dq +:+ the moinp +:+ dq] else [])
                 ++ (if truthy_list extra_blocks
                     then [join nl (default [] extra_blocks)] else [])))
      as (M & ->).
    exists (hr +:+ M). unfold last. now rewrite !str_append_assoc.
  - intros Hmo. rewrite Hmo.
    destruct (concat_elem (nl +:+ nl)
                [single_step_header m b j g c s extra moinp +:+ hr; blocks]
                ("%moinp " +:+ dq +:+ the moinp +:+ dq)
                (if truthy_list extra_blocks
                 then [join nl (default [] extra_blocks)] else []))
      as (L & R & HLR).
    exists L, R. simpl app in *. rewrite HLR. unfold last.
    now rewrite !str_append_assoc.
Qed.

(** X17 at a single-step run with a restart file. *)
Lemma single_step_document_shape_witness :
  ∃ before between,
    join (nl +:+ nl)
      (single_step_content "mol.xyz" 0 1 (Some "wB97X-D4") (Some "def2-SVP")
         "sp" (Some "DEFGRID3") None None None 32 4000 10 (Some "guess.gbw")
         "block" None)
    = before +:+ ("%moinp " +:+ dq +:+ "guess.gbw" +:+ dq) +:+ between
      +:+ nl +:+ nl +:+ nl +:+ "* xyzfile 0 1 mol.xyz" +:+ nl +:+ nl.
Proof.
  exact (proj2 (single_step_document_shape "mol.xyz" 0 1 (Some "wB97X-D4")
                  (Some "def2-SVP") "sp" (Some "DEFGRID3") None None None 32
                  4000 10 (Some "guess.gbw") "block" None) eq_refl).
Defined.

Lemma compound_step_nstates xyzfile charge mult seb comp i st n :
  st_job st ≠ "tddft" →
  compound_step xyzfile charge mult seb comp i (with_nstates n st)
  = compound_step xyzfile charge mult seb comp i st.
Proof.
  intros H%String.eqb_neq. unfold compound_step, step_bang. cbv zeta.
  simpl. now rewrite H.
Qed.

Lemma compound_loop_nstates xyzfile charge mult seb steps comp i n :
  (∀ st, st ∈ steps → st_job st ≠ "tddft") →
  compound_loop xyzfile charge mult seb comp i (map (with_nstates n) steps)
  = compound_loop xyzfile charge mult seb comp i steps.
Proof.
  revert comp i. induction steps as [|st steps IH]; intros comp i H;
    [reflexivity|].
  simpl. rewrite compound_step_nstates by (apply H, list_elem_of_here).
  apply IH. intros x Hx. apply H. now apply list_elem_of_further.
Qed.

(** X18.  The number of excited states matters to jobs of kind [tddft]
    only: for any other job kind the single-step document is the same for
    every number, and so is the body of a compound document none of whose
    steps is of kind [tddft]. *)
Theorem nstates_only_for_tddft (xyzfile : string) (charge mult n n' : Z) :
  (∀ m b j g c s extra pal maxcore_mb moinp pal_style extra_blocks,
     j ≠ "tddft" →
     single_step_content xyzfile charge mult m b j g c s extra pal maxcore_mb
       n moinp pal_style extra_blocks
     = single_step_content xyzfile charge mult m b j g c s extra pal maxcore_mb
         n' moinp pal_style extra_blocks)
  ∧ (∀ steps seb,
       (∀ st, st ∈ steps → st_job st ≠ "tddft") →
       compound_comp xyzfile charge mult (map (with_nstates n) steps) seb
       = compound_comp xyzfile charge mult steps seb).
Proof.
  split.
  - intros * H%String.eqb_neq. unfold single_step_content. cbv zeta.
    now rewrite H.
  - intros steps seb H. unfold compound_comp. cbv zeta. f_equal.
    now apply compound_loop_nstates.
Qed.

(** ** The NEB mode *)

(** X19.  When [main] takes its NEB branch and the mode option, if given,
    is one of its three choices, the lookup of the mode in
    [write_neb_input] finds a job key, and that key has one keyword in
    [JOB_MAP].  Without the mode option the key is the job kind itself:
    from [--job nebci] the mode is [neb-ci] and the key [nebci] again.  With
    the mode option the job kind plays no part. *)
Theorem neb_mode_key (job neb_mode : option string) :
  neb_selected job neb_mode = true →
  (truthy neb_mode = true → the neb_mode ∈ ["neb"; "neb-ci"; "neb-ts"]) →
  ∃ key, NEB_JOB_KEY !! neb_mode_of job neb_mode = Some key
         ∧ length (JOB_MAP_get key) = 1%nat
         ∧ (truthy neb_mode = false → job = Some key)
         ∧ (truthy neb_mode = true →
            NEB_JOB_KEY !! the neb_mode = Some key).
Proof.
  unfold neb_selected, neb_mode_of. intros Hsel Hchoice.
  destruct (truthy neb_mode) eqn:Hm.
  - specialize (Hchoice eq_refl).
    each_elem Hchoice ltac:(eexists; split; [vm_compute; reflexivity|];
                            split; [reflexivity|];
                            split; [discriminate|];
                            intros _; vm_compute; reflexivity).
  - rewrite orb_false_r in Hsel. apply bool_decide_eq_true in Hsel.
    each_elem Hsel ltac:(eexists; split; [vm_compute; reflexivity|];
                         split; [reflexivity|];
                         split; [reflexivity|discriminate]).
Qed.

(** X19 at [--job nebci]. *)
Lemma neb_mode_key_witness :
  neb_mode_of (Some "nebci") None = "neb-ci"
  ∧ ∃ key, NEB_JOB_KEY !! "neb-ci" = Some key ∧ Some "nebci" = Some key.
Proof.
  split; [reflexivity|].
  assert (neb_selected (Some "nebci") None = true) as Hsel
    by (vm_compute; reflexivity).
  destruct (neb_mode_key (Some "nebci") None Hsel) as (key & H1 & _ & H3 & _);
    [discriminate|].
  exists key. split; [exact H1|]. now apply H3.
Defined.

Lemma NEB_JOB_KEY_unknown mode :
  mode ∉ ["neb"; "neb-ci"; "neb-ts"] → NEB_JOB_KEY !! mode = None.
Proof. intros H. unfold NEB_JOB_KEY. now apply not_elem_of_list_to_map_1. Qed.

Lemma nonempty_app_l a b : nonempty a = true → nonempty (a +:+ b) = true.
Proof. destruct a; [discriminate|reflexivity]. Qed.

Lemma nonempty_concat_head sep x l :
  nonempty x = true → nonempty (String.concat sep (x :: l)) = true.
Proof.
  intros H. destruct l; [exact H|]. rewrite concat_cons_cons.
  now apply nonempty_app_l.
Qed.

Lemma join_four (x y z u : string) :
  nonempty x = true → nonempty y = true → nonempty z = true →
  nonempty u = true →
  join (nl +:+ nl) (List.filter nonempty [x; y; z; u]) +:+ nl
  = x +:+ (nl +:+ nl) +:+ y +:+ (nl +:+ nl) +:+ z +:+ (nl +:+ nl) +:+ u +:+ nl.
Proof.
  intros Hx Hy Hz Hu. simpl List.filter. rewrite Hx, Hy, Hz, Hu.
  unfold join. rewrite !concat_cons_cons. simpl String.concat.
  now rewrite !str_append_assoc.
Qed.

(** The four chunks of the NEB document. *)
Lemma neb_chunks_form (float : Type) (str_float : float → string)
    (key : string) (m b g c s : option string) (extra : option (list string))
    (reactant_xyz product_xyz : string) (ts_xyz : option string)
    (charge mult pal maxcore_mb : Z) (pal_style : string) (springconst : float)
    (maxiter nimages : Z) :
  neb_chunks float str_float key m b g c s extra reactant_xyz product_xyz
    ts_xyz charge mult pal maxcore_mb pal_style springconst maxiter nimages
  = [ _make_bang_line m b key g c s (_parse_extras extra) None
      +:+ (if String.eqb pal_style "bang"
           then nl +:+ nl +:+ "! PAL" +:+ str_int pal else EmptyString);
      join nl ((if String.eqb pal_style "bang" then [] else [_pal_block pal])
               ++ [_maxcore_block maxcore_mb; _scf_block 300]);
      join nl (["%NEB"; "  NEB_END_XYZFILE " +:+ dq +:+ product_xyz +:+ dq]
               ++ (if truthy ts_xyz
                   then ["  NEB_TS_XYZFILE " +:+ dq +:+ the ts_xyz +:+ dq]
                   else [])
               ++ [ "  SpringConst " +:+ str_float springconst;
                    "  MAXITER " +:+ str_int maxiter;
                    "  NImages " +:+ str_int nimages; "end" ]);
      xyz_line charge mult reactant_xyz +:+ nl ].
Proof.
  unfold neb_chunks. cbv zeta.
  destruct (truthy ts_xyz), (String.eqb pal_style "bang"); simpl app;
    rewrite ?str_append_nil_r; reflexivity.
Qed.

(** X20.  For a mode outside [neb], [neb-ci] and [neb-ts], in particular
    for the job spellings [nebci] and [nebts], the NEB writer raises at its
    lookup and writes nothing.  For a mode with a job key, none of the four
    chunks is empty, so all are written: the text is the header, the control
    blocks, the [%NEB] section and the geometry line of the reactant, with
    empty lines between them; the header begins with the directive line of
    the job key, and the section names the transition-state guess when one
    is given. *)
Theorem neb_text_form (float : Type) (str_float : float → string)
    (mode : string) (m b g c s : option string) (extra : option (list string))
    (reactant_xyz product_xyz : string) (ts_xyz : option string)
    (charge mult pal maxcore_mb : Z) (pal_style : string) (springconst : float)
    (maxiter nimages : Z) :
  let text :=
    neb_text float str_float mode m b g c s extra reactant_xyz product_xyz
      ts_xyz charge mult pal maxcore_mb pal_style springconst maxiter nimages in
  (mode ∉ ["neb"; "neb-ci"; "neb-ts"] → text = None)
  ∧ (∀ key, NEB_JOB_KEY !! mode = Some key →
       ∃ head_rest blocks neb,
         text = Some ((_make_bang_line m b key g c s (_parse_extras extra) None
                       +:+ head_rest)
                      +:+ (nl +:+ nl) +:+ blocks
                      +:+ (nl +:+ nl) +:+ neb
                      +:+ (nl +:+ nl) +:+ xyz_line charge mult reactant_xyz
                      +:+ nl +:+ nl)
         ∧ (truthy ts_xyz = true →
            ∃ L R, neb = L +:+ ("  NEB_TS_XYZFILE " +:+ dq +:+ the ts_xyz +:+ dq)
                         +:+ R)).
Proof.
  intros text. unfold text, neb_text. split.
  - intros H. now rewrite (NEB_JOB_KEY_unknown mode H).
  - intros key ->. cbv zeta. rewrite neb_chunks_form.
    exists (if String.eqb pal_style "bang"
            then nl +:+ nl +:+ "! PAL" +:+ str_int pal else EmptyString),
      (join nl ((if String.eqb pal_style "bang" then [] else [_pal_block pal])
                ++ [_maxcore_block maxcore_mb; _scf_block 300])),
      (join nl (["%NEB"; "  NEB_END_XYZFILE " +:+ dq +:+ product_xyz +:+ dq]
                ++ (if truthy ts_xyz
                    then ["  NEB_TS_XYZFILE " +:+ dq +:+ the ts_xyz +:+ dq]
                    else [])
                ++ [ "  SpringConst " +:+ str_float springconst;
                     "  MAXITER " +:+ str_int maxiter;
                     "  NImages " +:+ str_int nimages; "end" ])).
    split.
    + rewrite join_four.
      * f_equal. rewrite !str_append_assoc. reflexivity.
      * apply nonempty_app_l. reflexivity.
      * unfold join.
        destruct (String.eqb pal_style "bang"); now apply nonempty_concat_head.
      * unfold join. now apply nonempty_concat_head.
      * reflexivity.
    + intros Hts. rewrite Hts. unfold join.
      apply (concat_elem nl
               ["%NEB"; "  NEB_END_XYZFILE " +:+ dq +:+ product_xyz +:+ dq]).
Qed.

(** An NEB document of the climbing-image kind with a guess of the
    transition state; the spring constant is given as its printed text. *)
Example neb_text_example :
  neb_text string id "neb-ci" (Some "r2SCAN-3c") None (Some "DEFGRID3") None
    None None "reactant.xyz" "product.xyz" (Some "ts.xyz") 0 1 32 4000 "block"
    "0.01" 200 10
  = Some ("! r2SCAN-3c DEFGRID3 TightSCF NEB-CI" +:+ nl +:+ nl
          +:+ "%pal" +:+ nl +:+ "  nprocs 32" +:+ nl +:+ "end" +:+ nl
          +:+ "%MaxCore 4000" +:+ nl
          +:+ "%scf" +:+ nl +:+ "  MaxIter 300" +:+ nl +:+ "end" +:+ nl +:+ nl
          +:+ "%NEB" +:+ nl
          +:+ "  NEB_END_XYZFILE " +:+ dq +:+ "product.xyz" +:+ dq +:+ nl
          +:+ "  NEB_TS_XYZFILE " +:+ dq +:+ "ts.xyz" +:+ dq +:+ nl
          +:+ "  SpringConst 0.01" +:+ nl
          +:+ "  MAXITER 200" +:+ nl
          +:+ "  NImages 10" +:+ nl
          +:+ "end" +:+ nl +:+ nl
          +:+ "* xyzfile 0 1 reactant.xyz" +:+ nl +:+ nl).
Proof. vm_compute. reflexivity. Qed.

(** ** More on the directive line *)

Lemma count_tok_elem p l t :
  t ∈ l → p t = true → (1 ≤ count_tok p l)%nat.
Proof.
  induction l as [|x l IH]; intros Hin Hp; [now apply elem_of_nil in Hin|].
  rewrite count_tok_cons. apply elem_of_cons in Hin as [<-|Hin].
  - rewrite Hp. lia.
  - specialize (IH Hin Hp). lia.
Qed.

(** X21.  Every directive line carries at least one convergence token, the
    default one or one of the caller: the line is never the bare marker. *)
Theorem bang_line_has_convergence_token m b j g c s (e : list string) f :
  let toks := line_tokens (_make_bang_toks m b j g c s e f) in
  (1 ≤ count_tok is_scf_override toks)%nat ∧ toks ≠ [].
Proof.
  intros toks.
  assert (1 ≤ count_tok is_scf_override toks)%nat as H.
  { unfold toks. rewrite count_tok_line_tokens by reflexivity.
    rewrite bang_toks_segments. unfold Spec.directive_tokens.
    rewrite !count_tok_app.
    destruct (decide (Exists Spec.convergence_override e)) as [Hex|Hno].
    - apply Exists_exists in Hex as (t & Hin & Ht).
      apply is_scf_override_spec in Ht.
      pose proof (count_tok_elem is_scf_override e t Hin Ht). lia.
    - rewrite (convergence_token_default e Hno).
      change (count_tok is_scf_override ["TightSCF"]) with 1%nat. lia. }
  split; [exact H|]. intros Hnil. rewrite Hnil in H.
  unfold count_tok in H. simpl in H. lia.
Qed.

Lemma split_from_word cur t rest :
  all_chars (λ c, negb (is_space c)) t = true →
  split_from cur (t +:+ rest) = split_from (cur +:+ t) rest.
Proof.
  revert cur. induction t as [|c r IH]; intros cur H.
  - now rewrite str_append_nil_r.
  - simpl in H. apply andb_true_iff in H as [Hc Hr].
    apply negb_true_iff in Hc. simpl. rewrite Hc, (IH _ Hr).
    now rewrite str_append_assoc.
Qed.

Lemma split_from_blank t rest :
  nonempty t = true →
  split_from t (" " +:+ rest) = t :: split_from EmptyString rest.
Proof.
  intros H.
  change (split_from t (" " +:+ rest))
    with (if is_space " "
          then (if nonempty t then t :: split_from EmptyString rest
                else split_from EmptyString rest)
          else split_from (t +:+ " ") rest).
  change (is_space " ") with true. cbv iota. now rewrite H.
Qed.

Lemma split_concat_words l :
  (∀ t, t ∈ l → nonempty t = true
                ∧ all_chars (λ c, negb (is_space c)) t = true) →
  split (String.concat " " l) = l.
Proof.
  unfold split. induction l as [|t l IH]; intros H; [reflexivity|].
  destruct (H t) as [Hne Hw]; [apply list_elem_of_here|].
  assert (∀ x, x ∈ l → nonempty x = true
                       ∧ all_chars (λ c, negb (is_space c)) x = true) as H'
    by (intros x Hx; apply H; now apply list_elem_of_further).
  destruct l as [|t' l].
  - simpl. rewrite <- (str_append_nil_r t) at 1.
    rewrite (split_from_word _ _ _ Hw). simpl.
    change (EmptyString +:+ t) with t. now rewrite Hne.
  - rewrite concat_cons_cons, (split_from_word _ _ _ Hw).
    change (EmptyString +:+ t) with t.
    rewrite (split_from_blank _ _ Hne). f_equal. now apply IH.
Qed.

(** X22.  When no token holds white space, the tokens can be read back
    from the line: split at white space, the line is the marker followed by
    the non-empty tokens in their order. *)
Theorem join_bang_tokens_split (tokens : list string) :
  (∀ t, t ∈ tokens → all_chars (λ c, negb (is_space c)) t = true) →
  split (_join_bang_tokens tokens) = "!" :: line_tokens tokens.
Proof.
  intros H. unfold _join_bang_tokens, join. fold (line_tokens tokens).
  assert (split (String.concat " " (line_tokens tokens)) = line_tokens tokens)
    as Hl.
  { apply split_concat_words. intros t Ht. unfold line_tokens in Ht.
    apply list_elem_of_In, filter_In in Ht as [Hin Hne].
    split; [exact Hne|]. now apply H, list_elem_of_In. }
  unfold split in *.
  change ("! " +:+ String.concat " " (line_tokens tokens))
    with ("!" +:+ " " +:+ String.concat " " (line_tokens tokens)).
  rewrite (split_from_word EmptyString "!") by reflexivity.
  change (EmptyString +:+ "!") with "!".
  rewrite split_from_blank by reflexivity. now rewrite Hl.
Qed.

(** X22 at the tokens of the worked example. *)
Lemma join_bang_tokens_split_witness :
  split (_join_bang_tokens
           ["wB97X-D4"; "def2-TZVPPD"; "DEFGRID3"; "TightSCF"; "Opt"; "Freq"])
  = ["!"; "wB97X-D4"; "def2-TZVPPD"; "DEFGRID3"; "TightSCF"; "Opt"; "Freq"].
Proof.
  apply (join_bang_tokens_split
           ["wB97X-D4"; "def2-TZVPPD"; "DEFGRID3"; "TightSCF"; "Opt"; "Freq"]).
  intros t Ht. each_elem Ht ltac:(reflexivity).
Defined.

End OS.

(** * Runs on a given operating system *)

(** The properties above hold for every operating system.  What follows are
    runs on one of them, whose [mkdir] finds regular files in the way and
    whose [open] refuses nothing. *)

(** ** Missing literal blocks *)

(** C8 at a single-step run whose only literal block is missing. *)
Lemma C8_missing_literal_block_witness :
  main_assemble file_in_the_way never_refused args_block "mol.inp" "mol.xyz"
    world0
  = (inl (FileNotFoundError "extra block file not found: geom.txt"), world0).
Proof.
  assert (∃ p, p ∈ referenced_blocks args_block ∧ files world0 !! p = None)
    as Hex.
  { exists "geom.txt". split; [apply list_elem_of_here|reflexivity]. }
  destruct (C8_missing_literal_block file_in_the_way never_refused args_block
              "mol.inp" "mol.xyz" world0 eq_refl Hex)
    as (p & Hin & _ & _ & _ & Hrun).
  apply elem_of_cons in Hin as [->|Hin]; [exact Hrun|].
  now apply elem_of_nil in Hin.
Defined.

(** X16 at a folder run whose literal block is missing. *)
Lemma main_folder_missing_block_witness :
  main_folder file_in_the_way never_refused args_block false "*.xyz" "xyzs"
    [("a.xyz", "xyzs/a.inp")] world0
  = (inl (FileNotFoundError "extra block file not found: geom.txt"), world0).
Proof.
  exact (proj1 (main_folder_missing_block file_in_the_way never_refused
                  args_block false "*.xyz" "xyzs" world0)
           ("a.xyz", "xyzs/a.inp") [] "geom.txt" eq_refl).
Defined.

(** ** Single-step documents *)

(** C6 at the worked example, written to two directories one after the
    other. *)
Lemma C6_single_step_deterministic_witness :
  let run p :=
    write_single_step file_in_the_way never_refused p "mol.xyz" 0 1
      (Some "wB97X-D4") (Some "def2-TZVPPD") "optfreq" (Some "DEFGRID3") None
      None None 32 4000 10 None "block" None in
  let w1 := (run "a/mol.inp" world0).2 in
  let w2 := (run "b/mol.inp" w1).2 in
  run "a/mol.inp" world0 = (inr tt, w1) ∧ run "b/mol.inp" w1 = (inr tt, w2)
  ∧ ∃ text, files w2 !! "a/mol.inp" = Some text
            ∧ files w2 !! "b/mol.inp" = Some text.
Proof.
  intros run w1 w2.
  assert (run "a/mol.inp" world0 = (inr tt, w1)) as H1
    by (vm_compute; reflexivity).
  assert (run "b/mol.inp" w1 = (inr tt, w2)) as H2
    by (vm_compute; reflexivity).
  assert ("a/mol.inp" ≠ "b/mol.inp") as Hne by discriminate.
  destruct (C6_single_step_deterministic file_in_the_way never_refused
              "a/mol.inp" "b/mol.inp" "mol.xyz" 0 1 (Some "wB97X-D4")
              (Some "def2-TZVPPD") "optfreq" (Some "DEFGRID3") None None None
              32 4000 10 None "block" None world0 w1 w2 Hne H1 H2)
    as (_ & Ha & Hb & _).
  split; [exact H1|]. split; [exact H2|]. eexists. split; [exact Ha|exact Hb].
Defined.

(** A regular file in the way: once a first document stands under
    [blocker], a second run to [blocker/mol.inp] ends at [mkdir] in
    [FileExistsError] and writes nothing. *)
Example single_step_blocked :
  let run p :=
    write_single_step file_in_the_way never_refused p "mol.xyz" 0 1
      (Some "wB97X-D4") (Some "def2-TZVPPD") "optfreq" (Some "DEFGRID3") None
      None None 32 4000 10 None "block" None in
  let w1 := (run "blocker" world0).2 in
  run "blocker" world0 = (inr tt, w1)
  ∧ run "blocker/mol.inp" w1
    = (inl (FileExistsError "[Errno 17] File exists: 'blocker'"), w1).
Proof. split; vm_compute; reflexivity. Qed.

(** The single-step example of the source ([--job optfreq] with the default
    resources), run through [main_assemble]: the file written. *)
Example main_single_step :
  files (main_assemble file_in_the_way never_refused args0 "out/mol.inp"
           "mol.xyz" world0).2 !! "out/mol.inp"
  = Some ("! wB97X-D4 def2-TZVPPD DEFGRID3 TightSCF Opt Freq" +:+ nl +:+ nl
          +:+ "%pal" +:+ nl +:+ "  nprocs 32" +:+ nl +:+ "end" +:+ nl
          +:+ "%MaxCore 4000" +:+ nl
          +:+ "%scf" +:+ nl +:+ "  MaxIter 300" +:+ nl +:+ "end" +:+ nl +:+ nl
          +:+ nl +:+ "* xyzfile 0 1 mol.xyz" +:+ nl +:+ nl).
Proof. vm_compute. reflexivity. Qed.


(** ** Compound documents *)

(** C2, counterexample.  A run of two stages whose literal block for the
    second stage holds a geometry line of its own: the document has the
    geometry line twice, once in the block of each stage. *)
Lemma C2_counterexample :
  let w := World {[ "s2.txt" := "* xyzfile 0 1 mol.xyz" +:+ nl ]} [] in
  ∃ doc,
    main_assemble file_in_the_way never_refused args_two_steps "mol.inp"
      "mol.xyz" w
    = (inr 0%Z,
       World (<["mol.inp" := doc]> (files w))
         ["[OK] Wrote %compound input: mol.inp"])
    ∧ lines doc
      = [ "! PAL32"; "%MaxCore 4000"; EmptyString;
          "%compound";
          "New_step";
          "! wB97X-D4 def2-SVPD DEFGRID3 TightSCF Opt Freq";
          "%scf"; "  MaxIter 300"; "end";
          "* xyzfile 0 1 mol.xyz"; EmptyString;
          "Step_end"; EmptyString;
          "New_step";
          "! wB97X-D4 def2-SVPD DEFGRID3 TightSCF";
          "%scf"; "  MaxIter 300"; "end";
          "* xyzfile 0 1 mol.xyz";
          "Step_end"; EmptyString;
          "EndRun"; EmptyString ]
    ∧ count_tok (String.eqb "* xyzfile 0 1 mol.xyz") (lines doc) = 2.
Proof.
  intros w. eexists. split; [vm_compute; reflexivity|].
  split; vm_compute; reflexivity.
Qed.

(** C2 at the compound example of the specification, with a global literal
    block and a literal block for the first stage. *)
Lemma C2_geometry_line_once_witness :
  let w' :=
    (write_compound file_in_the_way never_refused "out/mol.inp" "mol.xyz" 0 1
       [step_optfreq; step_sp] 32 4000 "bang"
       (Some ["%basis" +:+ nl +:+ "end" +:+ nl])
       (Some {[ 1%nat := ["%geom" +:+ nl +:+ "  MaxIter 200" +:+ nl +:+ "end"
                          +:+ nl] ]})
       world0).2 in
  ∃ doc,
    files w' !! "out/mol.inp" = Some doc
    ∧ lines doc
      = [ "! PAL32"; "%MaxCore 4000"; EmptyString;
          "%basis"; "end"; EmptyString;
          "%compound";
          "New_step";
          "! wB97X-D4 def2-SVPD DEFGRID3 TightSCF Opt Freq";
          "%scf"; "  MaxIter 300"; "end";
          "%geom"; "  MaxIter 200"; "end";
          "* xyzfile 0 1 mol.xyz"; EmptyString;
          "Step_end"; EmptyString;
          "New_step";
          "! wB97M-V def2-TZVPPD DEFGRID3 TightSCF";
          "%scf"; "  MaxIter 300"; "end";
          "Step_end"; EmptyString;
          "EndRun"; EmptyString ]
    ∧ count_tok (String.eqb "* xyzfile 0 1 mol.xyz") (lines doc) = 1.
Proof.
  intros w'.
  destruct (C2_geometry_line_once file_in_the_way never_refused "out/mol.inp"
              "mol.xyz" 0 1 step_optfreq [step_sp] 32 4000 "bang"
              (Some ["%basis" +:+ nl +:+ "end" +:+ nl])
              (Some {[ 1%nat := ["%geom" +:+ nl +:+ "  MaxIter 200" +:+ nl
                                 +:+ "end" +:+ nl] ]})
              world0 w')
    as (doc & Hdoc & Hlines & Hcount & _).
  - reflexivity.
  - intros t Ht Hin. vm_compute in Ht.
    each_elem Ht ltac:(vm_compute in Hin; no_elem Hin).
  - vm_compute. reflexivity.
  - exists doc. split; [exact Hdoc|]. split; [|exact Hcount].
    rewrite Hlines. vm_compute. reflexivity.
Defined.

(** ** The folder mode *)

